(** * A contact book: shallow embedding of [main.py] and its properties

    The program keeps an [AddressBook] (a [UserDict] from names to [Record]s),
    validates phones and birthdays in property setters, searches by
    substring, and saves and loads the mapping with [pickle].

    Conventions of the embedding.
    - A Python [str] is a [string]: a sequence of code points below 256
      (Latin-1 text).  On that range [\d] is exactly [0-9], [str.lower]
      moves [A-Z] and the accented capitals by 32, and white space is the
      set listed in [isspace].  Module [Unicode] drops this convention
      for the check of a phone: there a [str] has any code points.
    - A call that may raise returns a [result]: [Ok v] or [Raise e].  Every
      method of the program mutates its object only after its last raising
      point, so a method is a function from the object before the call to
      the object after it, and [Raise] leaves the object as it was.
    - A record and its list of phones belong to one entry of the book: the
      program builds each record from a fresh list, [[Phone(phone)]], and
      keeps it under its own name.  A change made in place to the record
      found under a key is then the replacement of the value under that
      key.  Module [Heap] drops this convention for [edit_phone] and
      [edit_contact]: there records name their lists, and two of them can
      name the same one.
    - [date.today()] is the argument [today]; files are a finite map from
      paths to byte strings; [pickle] is a pair of functions, [dumps] and
      [loads], the second returning an object or raising, of which only
      [loads (dumps d) = Ok d] is ever assumed. *)

From Stdlib Require Import ZArith Ascii String List Lia Bool.
From stdpp Require Import base list strings gmap pretty.

Local Open Scope Z_scope.

(** ** Exceptions and results

    The classes the program and its libraries name; [Exception class msg]
    is an exception of any other class, one that is none of those above
    nor a subclass of one of them. *)

Inductive exn : Type :=
| ValueError (msg : string)
| KeyError (key : string)
| IndexError (msg : string)
| AttributeError (msg : string)
| FileNotFoundError (path : string)
| UnpicklingError
| EOFError
| Exception (class msg : string).

Inductive result (A : Type) : Type :=
| Ok (a : A)
| Raise (e : exn).

Arguments Ok {A} a.
Arguments Raise {A} e.

#[global] Instance result_ret : MRet result := fun _ a => Ok a.

#[global] Instance result_bind : MBind result := fun _ _ k c =>
  match c with
  | Ok a => k a
  | Raise e => Raise e
  end.

(** [try: c except h]: the handler [h] says which exceptions it catches. *)
Definition try_except {A : Type} (c : result A) (h : exn → option (result A))
  : result A :=
  match c with
  | Ok a => Ok a
  | Raise e => match h e with
               | Some r => r
               | None => Raise e
               end
  end.

(** ** Strings the way Python treats them *)

Definition code (c : ascii) : Z := Z.of_nat (nat_of_ascii c).

Definition chr (n : Z) : ascii := ascii_of_nat (Z.to_nat n).

(** [\d] and [str.isdigit] on Latin-1. *)
Definition is_digit (c : ascii) : bool :=
  (48 <=? code c) && (code c <=? 57).

(** [str.isspace] on Latin-1: TAB..CR, FS..US, space, NEL, NBSP. *)
Definition isspace (c : ascii) : bool :=
  let n := code c in
  ((9 <=? n) && (n <=? 13)) || ((28 <=? n) && (n <=? 32))
  || (n =? 133) || (n =? 160).

(** [str.lower] on one Latin-1 character. *)
Definition lower_char (c : ascii) : ascii :=
  let n := code c in
  if ((65 <=? n) && (n <=? 90))
     || ((192 <=? n) && (n <=? 222) && negb (n =? 215))
  then chr (n + 32) else c.

Fixpoint lower (s : string) : string :=
  match s with
  | EmptyString => EmptyString
  | String c s' => String (lower_char c) (lower s')
  end.

(** [s.startswith(p)] *)
Fixpoint startswith (s p : string) : bool :=
  match p, s with
  | EmptyString, _ => true
  | String a p', String b s' => Ascii.eqb a b && startswith s' p'
  | String _ _, EmptyString => false
  end.

(** [q in s] for strings: [q] occurs in [s] at some position. *)
Fixpoint str_in (q s : string) : bool :=
  startswith s q
  || match s with
     | EmptyString => false
     | String _ s' => str_in q s'
     end.

(** The truth value of a string or [None]: empty and [None] are false. *)
Definition truthy (v : option string) : bool :=
  match v with
  | None | Some EmptyString => false
  | Some (String _ _) => true
  end.

(** ** The fragment of [re] the program uses

    A backtracking matcher in continuation-passing style: [rmatch r pos s k]
    tries [r] at offset [pos], where [s] is what is left of the subject,
    and hands every way of matching it to [k], leftmost alternative
    first. *)

Inductive regex : Type :=
| Lit (c : ascii)
| Digit
| Bol
| Eol
| Opt (r : regex)
| Rep (n : nat) (r : regex)
| Cat (r1 r2 : regex).

(** [$] without [re.MULTILINE]: at the end, or before a final newline. *)
Definition at_eol (s : string) : bool :=
  match s with
  | EmptyString => true
  | String c EmptyString => Ascii.eqb c "010"
  | _ => false
  end.

Fixpoint rmatch (r : regex) (pos : nat) (s : string)
    (k : nat → string → bool) : bool :=
  match r with
  | Lit c =>
      match s with
      | String a s' => if Ascii.eqb a c then k (S pos) s' else false
      | EmptyString => false
      end
  | Digit =>
      match s with
      | String a s' => if is_digit a then k (S pos) s' else false
      | EmptyString => false
      end
  | Bol => if Nat.eqb pos 0 then k pos s else false
  | Eol => if at_eol s then k pos s else false
  | Opt r' => rmatch r' pos s k || k pos s
  | Rep n r' =>
      (fix rep (n : nat) (pos : nat) (s : string) : bool :=
         match n with
         | O => k pos s
         | S n' => rmatch r' pos s (fun p t => rep n' p t)
         end) n pos s
  | Cat r1 r2 => rmatch r1 pos s (fun p t => rmatch r2 p t k)
  end.

(** [re.match(r, s)]: anchored at offset 0, free at the end. *)
Definition re_match (r : regex) (s : string) : bool :=
  rmatch r O s (fun _ _ => true).

(** ** Lists and dicts the way Python treats them *)

(** [l[i]] accepts [-len(l) <= i < len(l)]; the result is the offset from
    the front, [None] stands for [IndexError]. *)
Definition py_index {A : Type} (l : list A) (i : Z) : option nat :=
  let n := Z.of_nat (length l) in
  if (0 <=? i) && (i <? n) then Some (Z.to_nat i)
  else if (- n <=? i) && (i <? 0) then Some (Z.to_nat (i + n))
  else None.

(** A [dict] with [str] keys keeps its keys in insertion order. *)
Definition dict (V : Type) : Type := list (string * V).

Fixpoint dict_get {V : Type} (d : dict V) (k : string) : option V :=
  match d with
  | [] => None
  | (k', v) :: d' => if String.eqb k' k then Some v else dict_get d' k
  end.

(** [d[k] = v]: an existing key keeps its place, a new one goes last. *)
Fixpoint dict_set {V : Type} (d : dict V) (k : string) (v : V) : dict V :=
  match d with
  | [] => [(k, v)]
  | (k', v') :: d' =>
      if String.eqb k' k then (k', v) :: d' else (k', v') :: dict_set d' k v
  end.

(** [del d[k]]; [None] stands for [KeyError]. *)
Fixpoint dict_del {V : Type} (d : dict V) (k : string) : option (dict V) :=
  match d with
  | [] => None
  | (k', v) :: d' =>
      if String.eqb k' k then Some d'
      else match dict_del d' k with
           | Some d'' => Some ((k', v) :: d'')
           | None => None
           end
  end.

Definition dict_keys {V : Type} (d : dict V) : list string := map fst d.

Definition dict_values {V : Type} (d : dict V) : list V := map snd d.

(** ** The fragment of [datetime] the program uses *)

Record date : Type := mkdate { year : Z; month : Z; day : Z }.

Definition MINYEAR : Z := 1.
Definition MAXYEAR : Z := 9999.

Definition _is_leap (y : Z) : bool :=
  (y mod 4 =? 0) && (negb (y mod 100 =? 0) || (y mod 400 =? 0)).

Definition _days_before_year (y : Z) : Z :=
  let y := y - 1 in y * 365 + y / 4 - y / 100 + y / 400.

Definition _DAYS_IN_MONTH (m : Z) : Z :=
  match m with
  | 1 => 31 | 2 => 28 | 3 => 31 | 4 => 30 | 5 => 31 | 6 => 30
  | 7 => 31 | 8 => 31 | 9 => 30 | 10 => 31 | 11 => 30 | 12 => 31
  | _ => -1
  end.

Definition _DAYS_BEFORE_MONTH (m : Z) : Z :=
  match m with
  | 1 => 0 | 2 => 31 | 3 => 59 | 4 => 90 | 5 => 120 | 6 => 151
  | 7 => 181 | 8 => 212 | 9 => 243 | 10 => 273 | 11 => 304 | 12 => 334
  | _ => -1
  end.

Definition _days_in_month (y m : Z) : Z :=
  if (m =? 2) && _is_leap y then 29 else _DAYS_IN_MONTH m.

Definition _days_before_month (y m : Z) : Z :=
  _DAYS_BEFORE_MONTH m + (if (2 <? m) && _is_leap y then 1 else 0).

Definition _ymd2ord (y m d : Z) : Z :=
  _days_before_year y + _days_before_month y m + d.

Definition valid_ymd (y m d : Z) : bool :=
  (MINYEAR <=? y) && (y <=? MAXYEAR) && (1 <=? m) && (m <=? 12)
  && (1 <=? d) && (d <=? _days_in_month y m).

Definition valid_date (x : date) : bool := valid_ymd (year x) (month x) (day x).

(** [date(y, m, d)] *)
Definition date_new (y m d : Z) : result date :=
  if negb ((MINYEAR <=? y) && (y <=? MAXYEAR))
  then Raise (ValueError ("year " +:+ pretty y +:+ " is out of range"))
  else if negb ((1 <=? m) && (m <=? 12))
  then Raise (ValueError "month must be in 1..12")
  else if negb ((1 <=? d) && (d <=? _days_in_month y m))
  then Raise (ValueError "day is out of range for month")
  else Ok (mkdate y m d).

(** [x.replace(year=y)] *)
Definition date_replace_year (x : date) (y : Z) : result date :=
  date_new y (month x) (day x).

Definition toordinal (x : date) : Z := _ymd2ord (year x) (month x) (day x).

(** [a < b] compares (year, month, day). *)
Definition date_lt (a b : date) : bool :=
  (year a <? year b)
  || ((year a =? year b)
      && ((month a <? month b)
          || ((month a =? month b) && (day a <? day b)))).

(** [(a - b).days] *)
Definition date_sub_days (a b : date) : Z := toordinal a - toordinal b.

(** *** [datetime.strptime(s, '%d%m%Y')]

    [_strptime] turns the format into the regular expression
    [(?P<d>3[0-1]|[1-2]\d|0[1-9]|[1-9]| [1-9])(?P<m>1[0-2]|0[1-9]|[1-9])(?P<Y>\d\d\d\d)],
    matches it at the start of the string, refuses a match that leaves
    characters over, and builds the date from the three groups.  An
    alternative of a group is a function from the subject to the text it
    takes and the rest. *)

Definition alternative : Type := string → option (string * string).

Definition in_range (lo hi : ascii) (c : ascii) : bool :=
  (code lo <=? code c) && (code c <=? code hi).

Definition is_char (a : ascii) (c : ascii) : bool := Ascii.eqb a c.

Definition chars1 (p : ascii → bool) : alternative := fun s =>
  match s with
  | String a r => if p a then Some (String a "", r) else None
  | _ => None
  end.

Definition chars2 (p q : ascii → bool) : alternative := fun s =>
  match s with
  | String a (String b r) =>
      if p a && q b then Some (String a (String b ""), r) else None
  | _ => None
  end.

Definition chars4 (p : ascii → bool) : alternative := fun s =>
  match s with
  | String a (String b (String c (String d r))) =>
      if p a && p b && p c && p d
      then Some (String a (String b (String c (String d ""))), r)
      else None
  | _ => None
  end.

Definition group_d : list alternative :=
  [ chars2 (is_char "3") (in_range "0" "1");
    chars2 (in_range "1" "2") is_digit;
    chars2 (is_char "0") (in_range "1" "9");
    chars1 (in_range "1" "9");
    chars2 (is_char " ") (in_range "1" "9") ].

Definition group_m : list alternative :=
  [ chars2 (is_char "1") (in_range "0" "2");
    chars2 (is_char "0") (in_range "1" "9");
    chars1 (in_range "1" "9") ].

Definition group_Y : list alternative := [ chars4 is_digit ].

(** The first alternative, in order, after which the rest of the pattern
    [k] matches. *)
Fixpoint first_alt {A : Type} (alts : list alternative) (s : string)
    (k : string → string → option A) : option A :=
  match alts with
  | [] => None
  | a :: alts' =>
      match
        match a s with
        | Some (text, rest) => k text rest
        | None => None
        end
      with
      | Some r => Some r
      | None => first_alt alts' s k
      end
  end.

(** The match of the whole pattern: the three groups and what is left. *)
Definition strptime_match (s : string)
  : option (string * string * string * string) :=
  first_alt group_d s (fun d s1 =>
    first_alt group_m s1 (fun m s2 =>
      first_alt group_Y s2 (fun y s3 => Some (d, m, y, s3)))).

(** [int(text)] for the text of a group: digits, after optional blanks. *)
Fixpoint int_digits (s : string) (acc : Z) : Z :=
  match s with
  | EmptyString => acc
  | String c s' =>
      if is_digit c then int_digits s' (10 * acc + (code c - 48))
      else int_digits s' acc
  end.

Definition int (s : string) : Z := int_digits s 0.

Definition strptime_dmY (s : string) : result date :=
  match strptime_match s with
  | None =>
      Raise (ValueError
               ("time data '" +:+ s +:+ "' does not match format '%d%m%Y'"))
  | Some (d, m, y, rest) =>
      match rest with
      | EmptyString => date_new (int y) (int m) (int d)
      | String _ _ =>
          Raise (ValueError ("unconverted data remains: " +:+ rest))
      end
  end.

(** ** The classes of the program *)

(** [class Name(Field)]: the plain [Field], whose setter stores anything. *)
Module Name.

Record t : Type := mk { _value : string }.

Definition __init__ (value : string) : t := mk value.

Definition value (self : t) : string := _value self.

End Name.

(** [class Phone(Field)] *)
Module Phone.

(** [_value] is [None] or a string. *)
Record t : Type := mk { _value : option string }.

(** [r'^\+?380\d{9}$'] *)
Definition pattern : regex :=
  Cat Bol
    (Cat (Opt (Lit "+"))
       (Cat (Lit "3") (Cat (Lit "8") (Cat (Lit "0")
          (Cat (Rep 9 Digit) Eol))))).

(** What the setter lets through: [None], or a match of [pattern]. *)
Definition accepts (value : option string) : bool :=
  match value with
  | None => true
  | Some s => re_match pattern s
  end.

(** The setter of [value]; [__init__] does nothing else. *)
Definition set_value (value : option string) : result t :=
  if negb (accepts value)
  then Raise (ValueError "Phone number should be in the format +380XXXXXXXXX")
  else Ok (mk value).

Definition __init__ (value : option string) : result t := set_value value.

Definition value (self : t) : option string := _value self.

(** [getattr(self, attr)]: an instance has [_value], the class adds the
    property [value]; any other name is an [AttributeError]. *)
Definition getattr (self : t) (attr : string) : result (option string) :=
  if String.eqb attr "value" || String.eqb attr "_value"
  then Ok (_value self)
  else Raise (AttributeError
                ("'Phone' object has no attribute '" +:+ attr +:+ "'")).

End Phone.

(** ** Phones of any characters

    [input] delivers a [str] of any code points, and on a [str] the [\d]
    of a pattern matches every decimal digit of the Unicode database
    (category [Nd]): [0-9], the only ones below 256, and the digits of
    the other scripts.  Here a [str] is the list of its code points, and
    the table of decimal digits, which belongs to the interpreter, is the
    parameter [decimal]. *)
Module Unicode.

Definition str : Type := list Z.

(** The code points of Latin-1 text. *)
Definition of_string (s : string) : str := map code (list_ascii_of_string s).

(** [$] without [re.MULTILINE]: at the end, or before a final newline. *)
Definition at_eol (s : str) : bool :=
  match s with
  | [] => true
  | [c] => c =? 10
  | _ => false
  end.

(** The matcher of [rmatch], on code points. *)
Fixpoint rmatch (decimal : Z → bool) (r : regex) (pos : nat) (s : str)
    (k : nat → str → bool) : bool :=
  match r with
  | Lit c =>
      match s with
      | a :: s' => if a =? code c then k (S pos) s' else false
      | [] => false
      end
  | Digit =>
      match s with
      | a :: s' => if decimal a then k (S pos) s' else false
      | [] => false
      end
  | Bol => if Nat.eqb pos 0 then k pos s else false
  | Eol => if at_eol s then k pos s else false
  | Opt r' => rmatch decimal r' pos s k || k pos s
  | Rep n r' =>
      (fix rep (n : nat) (pos : nat) (s : str) : bool :=
         match n with
         | O => k pos s
         | S n' => rmatch decimal r' pos s (fun p t => rep n' p t)
         end) n pos s
  | Cat r1 r2 =>
      rmatch decimal r1 pos s (fun p t => rmatch decimal r2 p t k)
  end.

Definition re_match (decimal : Z → bool) (r : regex) (s : str) : bool :=
  rmatch decimal r O s (fun _ _ => true).

(** [class Phone(Field)], its value being a [str] of any characters. *)
Module Phone.

Record t : Type := mk { _value : option str }.

Definition accepts (decimal : Z → bool) (value : option str) : bool :=
  match value with
  | None => true
  | Some s => re_match decimal Phone.pattern s
  end.

Definition set_value (decimal : Z → bool) (value : option str) : result t :=
  if negb (accepts decimal value)
  then Raise (ValueError "Phone number should be in the format +380XXXXXXXXX")
  else Ok (mk value).

Definition __init__ (decimal : Z → bool) (value : option str) : result t :=
  set_value decimal value.

End Phone.

(** Exactly nine characters, decimal digits all. *)
Definition nine_decimals (decimal : Z → bool) (ds : str) : bool :=
  Nat.eqb (length ds) 9 && forallb decimal ds.

(** Two of the blocks of decimal digits: [0-9] and the Arabic-Indic digits
    U+0660 to U+0669.  A table for the examples; the database has the
    digits of some sixty scripts. *)
Definition western_and_arabic_indic (c : Z) : bool :=
  ((48 <=? c) && (c <=? 57)) || ((1632 <=? c) && (c <=? 1641)).

End Unicode.

(** [class Birthday(Field)] *)
Module Birthday.

(** [_value] is assigned only by the setter, and only for a true value:
    [None] here is an instance that has no attribute [_value]. *)
Record t : Type := mk { _value : option date }.

(** The setter, run by [__init__] on the new instance.  A [ValueError] of
    [strptime] or of [replace] becomes the setter's own. *)
Definition set_value (today : date) (self : t) (value : option string)
  : result t :=
  if truthy value then
    try_except
      (parsed ← strptime_dmY (default "" value);
       if date_lt parsed today
       then bumped ← date_replace_year parsed (year today + 1);
            Ok (mk (Some bumped))
       else Ok (mk (Some parsed)))
      (fun e => match e with
                | ValueError _ =>
                    Some (Raise (ValueError
                            "Invalid birthday date format. Use DDMMYYYY."))
                | _ => None
                end)
  else Ok self.

Definition __init__ (today : date) (value : option string) : result t :=
  set_value today (mk None) value.

(** The getter reads [self._value]. *)
Definition value (self : t) : result date :=
  match _value self with
  | Some d => Ok d
  | None =>
      Raise (AttributeError "'Birthday' object has no attribute '_value'")
  end.

End Birthday.

(** [class Record] *)
Module Record.

Record t : Type := mk {
  name : Name.t;
  phones : list Phone.t;
  birthday : option Birthday.t
}.

Definition __init__ (name : Name.t) (phones : option (list Phone.t))
    (birthday : option Birthday.t) : t :=
  mk name (default [] phones) birthday.

Definition add_phone (self : t) (phone : option string) : result t :=
  phone ← Phone.__init__ phone;
  Ok (mk (name self) (phones self ++ [phone]) (birthday self)).

Definition edit_phone (self : t) (index : Z) (phone : option string)
  : result t :=
  phone ← Phone.__init__ phone;
  match py_index (phones self) index with
  | Some i => Ok (mk (name self) (<[i := phone]> (phones self)) (birthday self))
  | None => Raise (IndexError "list assignment index out of range")
  end.

Definition delete_phone (self : t) (index : Z) : result t :=
  match py_index (phones self) index with
  | Some i => Ok (mk (name self) (delete i (phones self)) (birthday self))
  | None => Raise (IndexError "list assignment index out of range")
  end.

(** [None] is returned for a record without birthday; a [Birthday] object
    is true, so its [value] is read next, and a date is true as well. *)
Definition days_to_birthday (today : date) (self : t) : result (option Z) :=
  match birthday self with
  | None => Ok None
  | Some b =>
      v ← Birthday.value b;
      next_birthday ← date_new (year today) (month v) (day v);
      next_birthday ←
        (if date_lt next_birthday today
         then date_new (year today + 1) (month v) (day v)
         else Ok next_birthday);
      Ok (Some (date_sub_days next_birthday today))
  end.

(** [", ".join(xs)] *)
Fixpoint join (sep : string) (xs : list string) : string :=
  match xs with
  | [] => ""
  | [x] => x
  | x :: xs' => x +:+ sep +:+ join sep xs'
  end.

(** [str(x)] for the result of [days_to_birthday]. *)
Definition str_days (d : option Z) : string :=
  match d with
  | None => "None"
  | Some n => pretty n
  end.

Definition __str__ (today : date) (self : t) : result string :=
  let phones :=
    join ", " (omap (fun phone =>
                       if truthy (Phone.value phone) then Phone.value phone
                       else None) (phones self)) in
  days_to_birthday ← days_to_birthday today self;
  Ok ("Name: " +:+ Name.value (name self) +:+ ", Phone: " +:+ phones
      +:+ ", Days to Birthday: " +:+ str_days days_to_birthday).

End Record.

(** ** Files and [pickle] *)

(** The bytes of a file. *)
Definition bytes : Type := list Byte.byte.

(** The files of the machine, by path. *)
Abbreviation filesystem := (gmap string bytes).

(** [open(filename, "rb")], read to the end. *)
Definition open_rb (fs : filesystem) (filename : string) : result bytes :=
  match fs !! filename with
  | Some content => Ok content
  | None => Raise (FileNotFoundError filename)
  end.

(** [class AddressBook(UserDict)] *)
Module AddressBook.

Record t : Type := mk { data : dict Record.t }.

Definition __init__ : t := mk [].

Definition __iter__ (self : t) : list Record.t := dict_values (data self).

Definition add_contact (self : t) (record : Record.t) : t :=
  mk (dict_set (data self) (Name.value (Record.name record)) record).

(** [record] is the object stored under [name]: the assignment to its
    list shows there, before the record is stored again under its own
    name. *)
Definition edit_contact (self : t) (name : string) (phone : option string)
  : result t :=
  match dict_get (data self) name with
  | None => Raise (KeyError name)
  | Some record =>
      record ← Record.edit_phone record 0 phone;
      Ok (add_contact (mk (dict_set (data self) name record)) record)
  end.

Definition delete_contact (self : t) (name : string) : result t :=
  match dict_del (data self) name with
  | Some d => Ok (mk d)
  | None => Raise (KeyError name)
  end.

Definition show_all (today : date) (self : t) : result string :=
  match data self with
  | [] => Ok "No contacts found"
  | _ :: _ =>
      lines ← mapM (Record.__str__ today) (dict_values (data self));
      Ok (Record.join (String "010" "") lines)
  end.

(** The inner loop of [search]: whether some phone of the record matches. *)
Fixpoint search_phones (query : string) (phones : list Phone.t)
  : result bool :=
  match phones with
  | [] => Ok false
  | phone :: phones' =>
      number ← Phone.getattr phone "phone_number";
      if str_in query (lower (default "" number)) then Ok true
      else search_phones query phones'
  end.

(** The outer loop of [search], [results] being the list built so far. *)
Fixpoint search_records (query : string) (records : list Record.t)
    (results : list Record.t) : result (list Record.t) :=
  match records with
  | [] => Ok results
  | record :: records' =>
      if str_in query (lower (Name.value (Record.name record)))
      then search_records query records' (results ++ [record])
      else
        found ← search_phones query (Record.phones record);
        search_records query records'
          (if found : bool then results ++ [record] else results)
  end.

Definition search (self : t) (query : string) : result (list Record.t) :=
  let query := lower query in
  search_records query (dict_values (data self)) [].

Section Pickle.

(** [pickle.dumps] and [pickle.loads] on the mapping.  [loads] returns the
    object the bytes describe or raises what [pickle.load] raises on them:
    [EOFError] on an empty file, [UnpicklingError], [ValueError],
    [AttributeError] and others on bytes that are not a pickle, and any
    exception of a callable that the pickle makes it call. *)
Variable dumps : dict Record.t → bytes.
Variable loads : bytes → result (dict Record.t).

Definition save_to_file (self : t) (filename : string) (fs : filesystem)
  : filesystem :=
  <[filename := dumps (data self)]> fs.

Definition load_from_file (self : t) (filename : string) (fs : filesystem)
  : result t :=
  try_except
    (file ← open_rb fs filename;
     d ← loads file;
     Ok (mk d))
    (fun e => match e with
              | FileNotFoundError _ => Some (Ok self)
              | _ => None
              end).

End Pickle.

End AddressBook.

(** ** Records that share a list of phones

    [Record.__init__] keeps the list it is given, and [edit_phone] assigns
    into that list: two records can name one list, a pickle can hold such
    records, and one record can be kept under two keys.  In this model a
    record holds the location of its list in a heap of lists, so that a
    change made through one record shows through every record that names
    the same list.  No method of the program assigns to an attribute of a
    record after [__init__], so a record object kept in two places is a
    record value held twice. *)
Module Heap.

Definition loc : Type := nat.

(** The list object at each location. *)
Definition heap : Type := loc → list Phone.t.

(** The heap after an assignment into the list at [l], which is then [v]. *)
Definition set_list (h : heap) (l : loc) (v : list Phone.t) : heap :=
  fun l' => if Nat.eqb l' l then v else h l'.

Module Record.

Record t : Type := mk {
  name : Name.t;
  phones : loc;
  birthday : option Birthday.t
}.

(** [phone = Phone(phone); self.phones[index] = phone] *)
Definition edit_phone (self : t) (index : Z) (phone : option string)
    (h : heap) : result heap :=
  phone ← Phone.__init__ phone;
  match py_index (h (phones self)) index with
  | Some i => Ok (set_list h (phones self) (<[i := phone]> (h (phones self))))
  | None => Raise (IndexError "list assignment index out of range")
  end.

End Record.

Module AddressBook.

Record t : Type := mk { data : dict Record.t }.

Definition add_contact (self : t) (record : Record.t) : t :=
  mk (dict_set (data self) (Name.value (Record.name record)) record).

(** [record = self.data[name]; record.edit_phone(0, phone);
    self.add_contact(record)] *)
Definition edit_contact (self : t) (name : string) (phone : option string)
    (h : heap) : result (t * heap) :=
  match dict_get (data self) name with
  | None => Raise (KeyError name)
  | Some record =>
      h' ← Record.edit_phone record 0 phone h;
      Ok (add_contact self record, h')
  end.

End AddressBook.

End Heap.

(** What a reader finds in a record: its name, the phones of the list it
    names, and its birthday. *)
Definition heap_read (h : Heap.heap) (r : Heap.Record.t) : Record.t :=
  Record.mk (Heap.Record.name r) (h (Heap.Record.phones r))
    (Heap.Record.birthday r).

(** What a reader finds under a key of the book. *)
Definition heap_get (h : Heap.heap) (ab : Heap.AddressBook.t) (key : string)
  : option Record.t :=
  match dict_get (Heap.AddressBook.data ab) key with
  | Some r => Some (heap_read h r)
  | None => None
  end.

(** The book that a reader finds: every record with the phones of the
    list it names. *)
Definition heap_book (h : Heap.heap) (ab : Heap.AddressBook.t)
  : AddressBook.t :=
  AddressBook.mk
    (map (fun entry => (fst entry, heap_read h (snd entry)))
       (Heap.AddressBook.data ab)).

(** ** More of [str]: [split] *)

Fixpoint lstrip (s : string) : string :=
  match s with
  | String c s' => if isspace c then lstrip s' else s
  | EmptyString => EmptyString
  end.

(** [s.split()]: the maximal runs of characters that are not white space;
    [word] is the run being read. *)
Fixpoint split_from (s : string) (word : string) : list string :=
  match s with
  | EmptyString =>
      match word with EmptyString => [] | _ => [word] end
  | String c s' =>
      if isspace c
      then match word with
           | EmptyString => split_from s' ""
           | _ => word :: split_from s' ""
           end
      else split_from s' (word +:+ String c "")
  end.

Definition split (s : string) : list string := split_from s "".

(** The first run of [s] that has no white space, and what follows it. *)
Fixpoint first_word (s : string) : string * string :=
  match s with
  | EmptyString => ("", "")
  | String c s' =>
      if isspace c then ("", s)
      else let (w, r) := first_word s' in (String c w, r)
  end.

(** [s.split(maxsplit=1)]: the first word, then the rest from its first
    character that is not white space to the end of [s]. *)
Definition split_maxsplit_1 (s : string) : list string :=
  match lstrip s with
  | EmptyString => []
  | String _ _ as s1 =>
      let (w, r) := first_word s1 in
      match lstrip r with
      | EmptyString => [w]
      | String _ _ as r1 => [w; r1]
      end
  end.

(** ** The command functions *)

(** The decorator [input_error]: the wrapped call [c] returns, or one of
    three exceptions becomes a text, which [recover] makes a result. *)
Definition input_error {A : Type} (recover : string → A) (c : result A)
  : result A :=
  try_except c
    (fun e => match e with
              | KeyError _ => Some (Ok (recover "Contact not found"))
              | ValueError _ => Some (Ok (recover "Enter name and phone"))
              | IndexError _ => Some (Ok (recover "Enter name and phone"))
              | _ => None
              end).

Definition add_contact (ab : AddressBook.t) (name : string)
    (phone : option string) : result (AddressBook.t * string) :=
  input_error (fun msg => (ab, msg))
    (phone ← Phone.__init__ phone;
     let record := Record.__init__ (Name.__init__ name) (Some [phone]) None in
     Ok (AddressBook.add_contact ab record, "Contact added")).

Definition change_phone (ab : AddressBook.t) (name : string)
    (phone : option string) : result (AddressBook.t * string) :=
  input_error (fun msg => (ab, msg))
    (ab' ← AddressBook.edit_contact ab name phone;
     Ok (ab', "Phone number changed")).

Definition delete_contact (ab : AddressBook.t) (name : string)
  : result (AddressBook.t * string) :=
  input_error (fun msg => (ab, msg))
    (ab' ← AddressBook.delete_contact ab name;
     Ok (ab', "Contact deleted")).

(** The function [search] gives the list of records, or the text of
    [input_error]. *)
Definition search (ab : AddressBook.t) (name : string)
  : result (list Record.t + string) :=
  input_error inr
    (results ← AddressBook.search ab name;
     match results with
     | _ :: _ => Ok (inl results)
     | [] => Raise (IndexError "Enter name")
     end).

Definition show_phone (ab : AddressBook.t) (name : string) : result string :=
  input_error id
    (match dict_get (AddressBook.data ab) name with
     | Some record =>
         match Record.phones record with
         | phone :: _ =>
             number ← Phone.getattr phone "phone_number";
             Ok (default "None" number)
         | [] => Ok "No phone number"
         end
     | None => Raise (KeyError "Contact not found")
     end).

(** ** [main]: the command loop

    The global book [ab], the files and what was written to the terminal
    make the state; [stdin] is the list of lines still to be read, and
    reading past its end is [EOFError]. *)

Inductive output : Type :=
| Print (line : string)
| Prompt (text : string).

Record state : Type := mkstate {
  ab : AddressBook.t;
  fs : filesystem;
  out : list output
}.

(** How the process ends: [main] returns, or an exception nobody caught
    ends it with a traceback. *)
Inductive ending : Type :=
| Returned
| Uncaught (e : exn).

Record run : Type := mkrun { final : state; how : ending }.

(** What one command does to the loop. *)
Inductive step : Type :=
| Continue (st : state)
| Break (st : state)
| Crash (st : state) (e : exn).

Definition print (st : state) (line : string) : state :=
  mkstate (ab st) (fs st) (out st ++ [Print line]).

Definition prompt (st : state) (text : string) : state :=
  mkstate (ab st) (fs st) (out st ++ [Prompt text]).

Definition with_ab (st : state) (ab' : AddressBook.t) : state :=
  mkstate ab' (fs st) (out st).

Definition file_name : string := "address_book.pkl".

(** The [try] block of the [add] command, after its [input] gave [line]:
    the book with the new record. *)
Definition add_from_line (today : date) (ab : AddressBook.t) (line : string)
  : result AddressBook.t :=
  let data := split line in
  if (Z.of_nat (length data) <? 2)
  then Raise (ValueError "Please add other information")
  else
    let name := nth 0 data "" in
    let phone := nth 1 data "" in
    let birthday := data !! 2%nat in
    let name := Name.__init__ name in
    phone ← Phone.__init__ (Some phone);
    birthday ← Birthday.__init__ today birthday;
    let record := Record.__init__ name (Some [phone]) (Some birthday) in
    Ok (AddressBook.add_contact ab record).

(** [elif command.startswith("add")]: [except ValueError as e] prints
    [str(e)]. *)
Definition command_add (today : date) (st : state) (line : string) : step :=
  match add_from_line today (ab st) line with
  | Ok ab' => Continue (print (with_ab st ab') "Contact added")
  | Raise (ValueError msg) => Continue (print st msg)
  | Raise e => Crash st e
  end.

(** [elif command.startswith("change")], after its [input] gave [line]. *)
Definition command_change (st : state) (line : string) : step :=
  let body : result (AddressBook.t * string) :=
    match split line with
    | [name; phone] => change_phone (ab st) name (Some phone)
    | _ => Raise (ValueError "not enough or too many values to unpack")
    end in
  match body with
  | Ok (ab', result) => Continue (print (with_ab st ab') result)
  | Raise (ValueError _) => Continue (print st "Enter name and phone")
  | Raise e => Crash st e
  end.

(** [elif command.startswith("phone")] *)
Definition command_phone (st : state) (command : string) : step :=
  let body : result string :=
    match split command !! 1%nat with
    | Some name => show_phone (ab st) name
    | None => Raise (IndexError "list index out of range")
    end in
  match body with
  | Ok result => Continue (print st result)
  | Raise (IndexError _) => Continue (print st "Enter name")
  | Raise e => Crash st e
  end.

(** [for record in results: print(record)] *)
Fixpoint print_records (today : date) (st : state) (results : list Record.t)
  : state + state * exn :=
  match results with
  | [] => inl st
  | record :: results' =>
      match Record.__str__ today record with
      | Ok line => print_records today (print st line) results'
      | Raise e => inr (st, e)
      end
  end.

(** [elif command.startswith("search")] *)
Definition command_search (today : date) (st : state) (command : string)
  : step :=
  match split_maxsplit_1 command !! 1%nat with
  | None => Continue (print st "Enter a query for the search")
  | Some query =>
      match AddressBook.search (ab st) query with
      | Raise (IndexError _) =>
          Continue (print st "Enter a query for the search")
      | Raise e => Crash st e
      | Ok results =>
          match print_records today (print st "Search results:") results with
          | inr (st', IndexError _) =>
              Continue (print st' "Enter a query for the search")
          | inr (st', e) => Crash st' e
          | inl st' =>
              match results with
              | [] => Continue (print st' "No matching contacts found")
              | _ :: _ => Continue st'
              end
          end
      end
  end.

(** [elif command == "show all"] *)
Definition command_show_all (today : date) (st : state) : step :=
  match AddressBook.show_all today (ab st) with
  | Ok result => Continue (print st result)
  | Raise e => Crash st e
  end.

(** [elif command == "delete"], after its [input] gave [name]. *)
Definition command_delete (st : state) (name : string) : step :=
  match delete_contact (ab st) name with
  | Ok (ab', result) => Continue (print (with_ab st ab') result)
  | Raise (IndexError _) => Continue (print st "Not found")
  | Raise e => Crash st e
  end.

Section Main.

Variable dumps : dict Record.t → bytes.
Variable loads : bytes → result (dict Record.t).

Definition save (st : state) : state :=
  mkstate (ab st) (AddressBook.save_to_file dumps (ab st) file_name (fs st))
    (out st).

(** [elif command == "save"] *)
Definition command_save (st : state) : step :=
  Continue (print (save st) "Address book saved").

(** [elif command == "load"] *)
Definition command_load (st : state) : step :=
  match AddressBook.load_from_file loads (ab st) file_name (fs st) with
  | Ok ab' => Continue (print (with_ab st ab') "Address book loaded")
  | Raise e => Crash st e
  end.

(** [elif command in ["good bye", "close", "exit"]] *)
Definition command_exit (st : state) : step :=
  Break (print (print (save st) "Address book saved") "Good bye!").

(** The body of [while True], one turn for each command line. *)
Fixpoint loop (today : date) (stdin : list string) (st : state) : run :=
  let next (s : step) (k : state → run) : run :=
    match s with
    | Continue st' => k st'
    | Break st' => mkrun st' Returned
    | Crash st' e => mkrun st' (Uncaught e)
    end in
  match stdin with
  | [] => mkrun st (Uncaught EOFError)
  | line :: stdin =>
      let command := lower line in
      if String.eqb command "hello"
      then loop today stdin (print st "How can I help you?")
      else if startswith command "add" then
        let st := prompt st "Enter name, phone, and birthday (optional): " in
        match stdin with
        | [] => mkrun st (Uncaught EOFError)
        | line :: stdin => next (command_add today st line) (loop today stdin)
        end
      else if startswith command "change" then
        let st := prompt st "Enter name and phone: " in
        match stdin with
        | [] => mkrun st (Uncaught EOFError)
        | line :: stdin => next (command_change st line) (loop today stdin)
        end
      else if startswith command "phone"
      then next (command_phone st command) (loop today stdin)
      else if startswith command "search"
      then next (command_search today st command) (loop today stdin)
      else if String.eqb command "show all"
      then next (command_show_all today st) (loop today stdin)
      else if String.eqb command "delete" then
        let st := prompt st "Enter name: " in
        match stdin with
        | [] => mkrun st (Uncaught EOFError)
        | line :: stdin => next (command_delete st line) (loop today stdin)
        end
      else if String.eqb command "save"
      then next (command_save st) (loop today stdin)
      else if String.eqb command "load"
      then next (command_load st) (loop today stdin)
      else if String.eqb command "good bye" || String.eqb command "close"
              || String.eqb command "exit"
      then next (command_exit st) (loop today stdin)
      else loop today stdin (print st "Unknown command")
  end.

(** [ab = AddressBook()] at import, then [main()]. *)
Definition main (today : date) (files : filesystem) (stdin : list string)
  : run :=
  let st := mkstate AddressBook.__init__ files [] in
  match AddressBook.load_from_file loads (ab st) file_name (fs st) with
  | Raise e => mkrun st (Uncaught e)
  | Ok ab' => loop today stdin (print (with_ab st ab') "Hello!")
  end.

End Main.

(** ** A reference serializer

    [pickle] is a library: the program relies on [loads (dumps d)] giving
    [d] back and on nothing else of it.  [Codec] is one serializer with
    that property, a tagged and length-prefixed encoding, on which the
    runs below are computed. *)
Module Codec.

Definition decoder (A : Type) : Type := bytes → option (A * bytes).

Definition dec_bind {A B : Type} (d : decoder A) (k : A → decoder B)
  : decoder B := fun bs =>
  match d bs with
  | Some (a, rest) => k a rest
  | None => None
  end.

Definition dec_ret {A : Type} (a : A) : decoder A := fun bs => Some (a, bs).

(** A positive number, bit by bit from the lowest, then a stop byte. *)
Fixpoint enc_positive (p : positive) : bytes :=
  match p with
  | xH => [Byte.x02]
  | xO p' => Byte.x00 :: enc_positive p'
  | xI p' => Byte.x01 :: enc_positive p'
  end.

Fixpoint dec_positive (bs : bytes) : option (positive * bytes) :=
  match bs with
  | Byte.x02 :: rest => Some (xH, rest)
  | Byte.x00 :: rest =>
      match dec_positive rest with
      | Some (p, rest') => Some (xO p, rest')
      | None => None
      end
  | Byte.x01 :: rest =>
      match dec_positive rest with
      | Some (p, rest') => Some (xI p, rest')
      | None => None
      end
  | _ => None
  end.

Definition enc_Z (z : Z) : bytes :=
  match z with
  | Z0 => [Byte.x00]
  | Zpos p => Byte.x01 :: enc_positive p
  | Zneg p => Byte.x02 :: enc_positive p
  end.

Definition dec_Z : decoder Z := fun bs =>
  match bs with
  | Byte.x00 :: rest => Some (Z0, rest)
  | Byte.x01 :: rest => dec_bind dec_positive (fun p => dec_ret (Zpos p)) rest
  | Byte.x02 :: rest => dec_bind dec_positive (fun p => dec_ret (Zneg p)) rest
  | _ => None
  end.

Definition enc_nat (n : nat) : bytes := enc_Z (Z.of_nat n).

Definition dec_nat : decoder nat :=
  dec_bind dec_Z (fun z => dec_ret (Z.to_nat z)).

(** [n] items, one after the other. *)
Fixpoint dec_items {A : Type} (d : decoder A) (n : nat) : decoder (list A) :=
  match n with
  | O => dec_ret []
  | S n' =>
      dec_bind d (fun a => dec_bind (dec_items d n') (fun l => dec_ret (a :: l)))
  end.

Definition enc_list {A : Type} (enc : A → bytes) (l : list A) : bytes :=
  enc_nat (length l) ++ concat (map enc l).

Definition dec_list {A : Type} (d : decoder A) : decoder (list A) :=
  dec_bind dec_nat (dec_items d).

Definition enc_ascii (c : ascii) : bytes := [byte_of_ascii c].

Definition dec_ascii : decoder ascii := fun bs =>
  match bs with
  | b :: rest => Some (ascii_of_byte b, rest)
  | [] => None
  end.

Definition enc_string (s : string) : bytes :=
  enc_list enc_ascii (list_ascii_of_string s).

Definition dec_string : decoder string :=
  dec_bind (dec_list dec_ascii) (fun l => dec_ret (string_of_list_ascii l)).

Definition enc_option {A : Type} (enc : A → bytes) (o : option A) : bytes :=
  match o with
  | None => [Byte.x00]
  | Some a => Byte.x01 :: enc a
  end.

Definition dec_option {A : Type} (d : decoder A) : decoder (option A) :=
  fun bs =>
  match bs with
  | Byte.x00 :: rest => Some (None, rest)
  | Byte.x01 :: rest => dec_bind d (fun a => dec_ret (Some a)) rest
  | _ => None
  end.

Definition enc_date (x : date) : bytes :=
  enc_Z (year x) ++ enc_Z (month x) ++ enc_Z (day x).

Definition dec_date : decoder date :=
  dec_bind dec_Z (fun y => dec_bind dec_Z (fun m => dec_bind dec_Z (fun d =>
    dec_ret (mkdate y m d)))).

Definition enc_phone (p : Phone.t) : bytes :=
  enc_option enc_string (Phone._value p).

Definition dec_phone : decoder Phone.t :=
  dec_bind (dec_option dec_string) (fun v => dec_ret (Phone.mk v)).

Definition enc_birthday (b : Birthday.t) : bytes :=
  enc_option enc_date (Birthday._value b).

Definition dec_birthday : decoder Birthday.t :=
  dec_bind (dec_option dec_date) (fun v => dec_ret (Birthday.mk v)).

Definition enc_record (r : Record.t) : bytes :=
  enc_string (Name._value (Record.name r))
  ++ enc_list enc_phone (Record.phones r)
  ++ enc_option enc_birthday (Record.birthday r).

Definition dec_record : decoder Record.t :=
  dec_bind dec_string (fun n =>
  dec_bind (dec_list dec_phone) (fun ps =>
  dec_bind (dec_option dec_birthday) (fun b =>
    dec_ret (Record.mk (Name.mk n) ps b)))).

Definition enc_entry (e : string * Record.t) : bytes :=
  enc_string (fst e) ++ enc_record (snd e).

Definition dec_entry : decoder (string * Record.t) :=
  dec_bind dec_string (fun k => dec_bind dec_record (fun r => dec_ret (k, r))).

Definition dumps (d : dict Record.t) : bytes := enc_list enc_entry d.

(** A pickle is the encoding of one mapping, with nothing after it.  As
    [pickle.load] does, the decoder raises [EOFError] on an empty file and
    [UnpicklingError] on other bytes it cannot read. *)
Definition loads (bs : bytes) : result (dict Record.t) :=
  match dec_list dec_entry bs with
  | Some (d, []) => Ok d
  | _ => Raise (match bs with
                | [] => EOFError
                | _ :: _ => UnpicklingError
                end)
  end.

End Codec.

(** ** Vocabulary of the statements *)

Fixpoint all_digits (s : string) : bool :=
  match s with
  | EmptyString => true
  | String c s' => is_digit c && all_digits s'
  end.

(** Exactly nine digits. *)
Definition nine_digits (s : string) : bool :=
  Nat.eqb (String.length s) 9 && all_digits s.

(** The text of [Phone]'s [ValueError]. *)
Definition phone_error : exn :=
  ValueError "Phone number should be in the format +380XXXXXXXXX".

(** A line feed, as a string. *)
Definition LF : string := String "010" "".

(** The day of the examples. *)
Definition a_tuesday : date := mkdate 2026 11 3.

(** A book with one contact, added with the phone of the spec's scenario
    and no birthday argument. *)
Definition alice : Record.t :=
  Record.mk (Name.mk "Alice") [Phone.mk (Some "+380501234567")]
    (Some (Birthday.mk None)).

Definition alice_book : AddressBook.t := AddressBook.mk [("Alice", alice)].

(** The month and day of [x] fall before those of [today]. *)
Definition occurred_this_year (today x : date) : bool :=
  (month x <? month today)
  || ((month x =? month today) && (day x <? day today)).

Definition attribute_error (cls attr : string) : exn :=
  AttributeError ("'" +:+ cls +:+ "' object has no attribute '" +:+ attr +:+ "'").

(** A contact whose stored birthday is 29 February 2028. *)
Definition bob : Record.t :=
  Record.mk (Name.mk "Bob") [Phone.mk (Some "+380501234567")]
    (Some (Birthday.mk (Some (mkdate 2028 2 29)))).

(** The name of [record] contains the lowered [query]. *)
Definition name_matches (query : string) (record : Record.t) : bool :=
  str_in query (lower (Name.value (Record.name record))).

(** The program run on the reference serializer. *)
Definition main_ref : date → filesystem → list string → run :=
  main Codec.dumps Codec.loads.

(** A pickle can name a callable for [pickle.load] to call, [open] among
    them.  [loads_calling_open path] is [pickle.load] on such a pickle,
    one that opens [path] where no file of that name exists. *)
Definition loads_calling_open (path : string)
  : bytes → result (dict Record.t) :=
  fun _ => Raise (FileNotFoundError path).

(** Two lists of one phone each. *)
Definition two_lists : Heap.heap := fun l =>
  match l with
  | O => [Phone.mk (Some "+380501234567")]
  | S O => [Phone.mk (Some "+380931234567")]
  | _ => []
  end.

(** A book as a pickle can hold it: a record of the name Alice under the
    key Al, and another under her own name. *)
Definition misfiled : Heap.AddressBook.t :=
  Heap.AddressBook.mk
    [("Al", Heap.Record.mk (Name.mk "Alice") 0%nat None);
     ("Alice", Heap.Record.mk (Name.mk "Alice") 1%nat None)].

(** Two contacts, each under its own name, whose records name one list. *)
Definition sharing : Heap.AddressBook.t :=
  Heap.AddressBook.mk
    [("Alice", Heap.Record.mk (Name.mk "Alice") 0%nat None);
     ("Bob", Heap.Record.mk (Name.mk "Bob") 0%nat None)].

(** What a reader finds in [misfiled] with the lists of [two_lists]. *)
Definition misfiled_book : dict Record.t :=
  [("Al", Record.mk (Name.mk "Alice") [Phone.mk (Some "+380501234567")] None);
   ("Alice",
    Record.mk (Name.mk "Alice") [Phone.mk (Some "+380931234567")] None)].

(** Alice alone, under her own name, her phones in the first list. *)
Definition alice_alone : Heap.AddressBook.t :=
  Heap.AddressBook.mk [("Alice", Heap.Record.mk (Name.mk "Alice") 0%nat None)].

(** A decoder undoes an encoder, whatever follows the encoding. *)
Definition codec_ok {A : Type} (enc : A → bytes) (dec : Codec.decoder A)
  : Prop :=
  ∀ x rest, dec (enc x ++ rest) = Some (x, rest).

(** ** Sequences of store operations

    A caller reaches a record through [ab.data[name]] and calls one of its
    methods; the record changes in place, under that key, in a book whose
    records share nothing. *)
Definition on_record (self : AddressBook.t) (name : string)
    (method : Record.t → result Record.t) : result AddressBook.t :=
  match dict_get (AddressBook.data self) name with
  | None => Raise (KeyError name)
  | Some record =>
      record ← method record;
      Ok (AddressBook.mk (dict_set (AddressBook.data self) name record))
  end.

Inductive operation : Type :=
| do_add (line : string)
| do_add_contact (name : string) (phone : option string)
| do_add_phone (name : string) (phone : option string)
| do_edit_phone (name : string) (index : Z) (phone : option string)
| do_edit_contact (name : string) (phone : option string)
| do_delete_phone (name : string) (index : Z)
| do_delete_contact (name : string)
| do_save (filename : string)
| do_load (filename : string).

(** The book after a call; a call that raises leaves it as it was. *)
Definition after (ab : AddressBook.t) (c : result AddressBook.t)
  : AddressBook.t :=
  match c with
  | Ok ab' => ab'
  | Raise _ => ab
  end.

Section Operations.

Variable dumps : dict Record.t → bytes.
Variable loads : bytes → result (dict Record.t).
Variable today : date.

Definition perform (op : operation) (s : AddressBook.t * filesystem)
  : AddressBook.t * filesystem :=
  let (ab, fs) := s in
  match op with
  | do_add line => (after ab (add_from_line today ab line), fs)
  | do_add_contact name phone =>
      (after ab (r ← add_contact ab name phone; Ok (fst r)), fs)
  | do_add_phone name phone =>
      (after ab (on_record ab name (fun r => Record.add_phone r phone)), fs)
  | do_edit_phone name index phone =>
      (after ab (on_record ab name (fun r => Record.edit_phone r index phone)),
       fs)
  | do_edit_contact name phone =>
      (after ab (AddressBook.edit_contact ab name phone), fs)
  | do_delete_phone name index =>
      (after ab (on_record ab name (fun r => Record.delete_phone r index)), fs)
  | do_delete_contact name =>
      (after ab (AddressBook.delete_contact ab name), fs)
  | do_save filename => (ab, AddressBook.save_to_file dumps ab filename fs)
  | do_load filename =>
      (after ab (AddressBook.load_from_file loads ab filename fs), fs)
  end.

Definition perform_all (ops : list operation)
    (s : AddressBook.t * filesystem) : AddressBook.t * filesystem :=
  fold_left (fun s op => perform op s) ops s.

End Operations.

(** Every phone of the record holds a value that [Phone]'s setter lets
    through. *)
Definition record_phones_valid (r : Record.t) : Prop :=
  Forall (fun p => Phone.accepts (Phone._value p) = true) (Record.phones r).

(** The same for every record of a mapping. *)
Definition phones_valid (d : dict Record.t) : Prop :=
  Forall (fun entry => record_phones_valid (snd entry)) d.

(** Every file that is a pickle holds a mapping with valid phones. *)
Definition files_valid (loads : bytes → result (dict Record.t))
    (fs : filesystem) : Prop :=
  ∀ path content d,
    fs !! path = Some content → loads content = Ok d → phones_valid d.

(** A mapping with a phone that no setter accepted, as a file may hold. *)
Definition foreign_book : dict Record.t :=
  [("Eve", Record.mk (Name.mk "Eve") [Phone.mk (Some "12345")] None)].

(** The state in which a step leaves the program. *)
Definition step_state (s : step) : state :=
  match s with
  | Continue st => st
  | Break st => st
  | Crash st _ => st
  end.

(** The phones of the book and of the files of a state are valid. *)
Definition state_valid (loads : bytes → result (dict Record.t)) (st : state)
  : Prop :=
  phones_valid (AddressBook.data (ab st)) ∧ files_valid loads (fs st).

(** The character of a digit, and numbers written with two and with four
    digits. *)
Definition digit (n : Z) : ascii := chr (48 + n).

Definition two_digits (n : Z) : string :=
  String (digit (n / 10)) (String (digit (n mod 10)) "").

Definition four_digits (n : Z) : string :=
  String (digit (n / 1000))
    (String (digit (n / 100 mod 10))
       (String (digit (n / 10 mod 10)) (String (digit (n mod 10)) ""))).

(** A date written as [DDMMYYYY]. *)
Definition DDMMYYYY (x : date) : string :=
  two_digits (day x) +:+ two_digits (month x) +:+ four_digits (year x).

(** The text of [Birthday]'s [ValueError]. *)
Definition birthday_error : exn :=
  ValueError "Invalid birthday date format. Use DDMMYYYY.".

(** [search] gets past [record] without reading a phone: its name
    matches, or it has no phone. *)
Definition searchable (query : string) (record : Record.t) : bool :=
  name_matches query record
  || match Record.phones record with [] => true | _ :: _ => false end.

(** The keys of a mapping are all different, and each contact is kept
    under its own name. *)
Definition book_ok (d : dict Record.t) : Prop :=
  NoDup (dict_keys d)
  ∧ Forall (fun entry => Name.value (Record.name (snd entry)) = fst entry) d.

(** Every file that is a pickle holds a mapping with the property [P]. *)
Definition files_hold (P : dict Record.t → Prop)
    (loads : bytes → result (dict Record.t)) (fs : filesystem) : Prop :=
  ∀ path content d, fs !! path = Some content → loads content = Ok d → P d.

(** The line is one of the commands that end the program. *)
Definition is_exit (line : string) : bool :=
  String.eqb (lower line) "good bye" || String.eqb (lower line) "close"
  || String.eqb (lower line) "exit".

(** * Properties *)

(** ** The matcher *)

Lemma append_cons a s t : String a s +:+ t = String a (s +:+ t).
Proof. reflexivity. Qed.

Lemma append_empty_r s : s +:+ "" = s.
Proof.
  induction s as [|a s IH]; [reflexivity|]. now rewrite append_cons, IH.
Qed.

Lemma rmatch_Cat r1 r2 pos s k :
  rmatch (Cat r1 r2) pos s k = rmatch r1 pos s (fun p t => rmatch r2 p t k).
Proof. reflexivity. Qed.

Lemma rmatch_Opt r pos s k :
  rmatch (Opt r) pos s k = rmatch r pos s k || k pos s.
Proof. reflexivity. Qed.

Lemma rmatch_Bol_0 s k : rmatch Bol 0 s k = k O s.
Proof. reflexivity. Qed.

Lemma rmatch_Eol pos s k :
  rmatch Eol pos s k = if at_eol s then k pos s else false.
Proof. reflexivity. Qed.

Lemma rmatch_Lit_cons c a pos s k :
  rmatch (Lit c) pos (String a s) k
  = if Ascii.eqb a c then k (S pos) s else false.
Proof. reflexivity. Qed.

Lemma rmatch_Rep_0 r pos s k : rmatch (Rep 0 r) pos s k = k pos s.
Proof. reflexivity. Qed.

Lemma rmatch_Rep_S n r pos s k :
  rmatch (Rep (S n) r) pos s k
  = rmatch r pos s (fun p t => rmatch (Rep n r) p t k).
Proof. reflexivity. Qed.

Lemma rmatch_Digit_cons a pos s k :
  rmatch Digit pos (String a s) k = if is_digit a then k (S pos) s else false.
Proof. reflexivity. Qed.

Lemma rmatch_Lit_inv c pos s k :
  rmatch (Lit c) pos s k = true →
  ∃ s', s = String c s' ∧ k (S pos) s' = true.
Proof.
  destruct s as [|a s']; simpl; [discriminate|].
  destruct (Ascii.eqb a c) eqn:E; [|discriminate].
  apply Ascii.eqb_eq in E. subst a. eauto.
Qed.

Lemma rmatch_digits_inv n : ∀ pos s k,
  rmatch (Rep n Digit) pos s k = true →
  ∃ ds rest, s = ds +:+ rest ∧ String.length ds = n
             ∧ all_digits ds = true ∧ k (n + pos)%nat rest = true.
Proof.
  induction n as [|n IH]; intros pos s k H.
  - rewrite rmatch_Rep_0 in H. exists "", s. auto.
  - rewrite rmatch_Rep_S in H. simpl in H.
    destruct s as [|a s']; [discriminate|].
    destruct (is_digit a) eqn:Ea; [|discriminate].
    apply IH in H as (ds & rest & -> & Hlen & Hds & Hk).
    exists (String a ds), rest. rewrite append_cons. simpl.
    rewrite Ea, Hds, Hlen.
    repeat split; auto. now rewrite Nat.add_succ_r in Hk.
Qed.

Lemma rmatch_digits n : ∀ pos ds rest k,
  String.length ds = n → all_digits ds = true →
  rmatch (Rep n Digit) pos (ds +:+ rest) k = k (n + pos)%nat rest.
Proof.
  induction n as [|n IH]; intros pos ds rest k Hlen Hds.
  - destruct ds; [reflexivity | discriminate].
  - destruct ds as [|a ds]; [discriminate|].
    simpl in Hlen, Hds. apply andb_true_iff in Hds as [Ha Hds].
    rewrite rmatch_Rep_S.
    change (String a ds +:+ rest) with (String a (ds +:+ rest)).
    rewrite rmatch_Digit_cons, Ha.
    rewrite IH by (auto; lia). now rewrite Nat.add_succ_r.
Qed.

Lemma at_eol_inv s : at_eol s = true → s = "" ∨ s = LF.
Proof.
  destruct s as [|c [|c' s']]; simpl; auto; [|discriminate].
  intros H. apply Ascii.eqb_eq in H. subst c. now right.
Qed.

(** What is left of the pattern after the optional plus. *)
Lemma rmatch_380_inv pos s :
  rmatch (Cat (Lit "3") (Cat (Lit "8") (Cat (Lit "0") (Cat (Rep 9 Digit) Eol))))
    pos s (fun _ _ => true) = true →
  ∃ ds, nine_digits ds = true ∧ (s = "380" +:+ ds ∨ s = "380" +:+ ds +:+ LF).
Proof.
  intros H.
  rewrite rmatch_Cat in H. apply rmatch_Lit_inv in H as (s1 & -> & H).
  rewrite rmatch_Cat in H. apply rmatch_Lit_inv in H as (s2 & -> & H).
  rewrite rmatch_Cat in H. apply rmatch_Lit_inv in H as (s3 & -> & H).
  rewrite rmatch_Cat in H.
  apply rmatch_digits_inv in H as (ds & rest & -> & Hlen & Hds & H).
  rewrite rmatch_Eol in H. destruct (at_eol rest) eqn:E; [|discriminate].
  exists ds. split.
  - unfold nine_digits. rewrite Hlen, Hds. reflexivity.
  - apply at_eol_inv in E as [-> | ->]; [left | right];
      rewrite ?append_empty_r; reflexivity.
Qed.

Lemma rmatch_380 pos ds :
  nine_digits ds = true →
  rmatch (Cat (Lit "3") (Cat (Lit "8") (Cat (Lit "0") (Cat (Rep 9 Digit) Eol))))
    pos ("380" +:+ ds) (fun _ _ => true) = true.
Proof.
  unfold nine_digits. intros H. apply andb_true_iff in H as [Hlen Hds].
  apply Nat.eqb_eq in Hlen.
  change ("380" +:+ ds) with (String "3" (String "8" (String "0" ds))).
  rewrite rmatch_Cat, rmatch_Lit_cons, Ascii.eqb_refl.
  rewrite rmatch_Cat, rmatch_Lit_cons, Ascii.eqb_refl.
  rewrite rmatch_Cat, rmatch_Lit_cons, Ascii.eqb_refl.
  rewrite rmatch_Cat, <- (append_empty_r ds).
  rewrite (rmatch_digits 9) by auto. reflexivity.
Qed.

Lemma accepts_inv s :
  Phone.accepts (Some s) = true →
  ∃ ds, nine_digits ds = true
        ∧ (s = "+380" +:+ ds ∨ s = "380" +:+ ds
           ∨ s = "+380" +:+ ds +:+ LF ∨ s = "380" +:+ ds +:+ LF).
Proof.
  unfold Phone.accepts, re_match, Phone.pattern. intros H.
  rewrite rmatch_Cat, rmatch_Bol_0, rmatch_Cat, rmatch_Opt in H.
  apply orb_true_iff in H as [H | H].
  - apply rmatch_Lit_inv in H as (s' & -> & H).
    apply rmatch_380_inv in H as (ds & Hds & [-> | ->]); exists ds; auto.
  - apply rmatch_380_inv in H as (ds & Hds & [-> | ->]); exists ds; auto.
Qed.

Lemma accepts_plus ds :
  nine_digits ds = true → Phone.accepts (Some ("+380" +:+ ds)) = true.
Proof.
  intros H. unfold Phone.accepts, re_match, Phone.pattern.
  rewrite rmatch_Cat, rmatch_Bol_0, rmatch_Cat, rmatch_Opt.
  apply orb_true_iff. left.
  change ("+380" +:+ ds) with (String "+" ("380" +:+ ds)).
  rewrite rmatch_Lit_cons, Ascii.eqb_refl. now apply rmatch_380.
Qed.

Lemma accepts_bare ds :
  nine_digits ds = true → Phone.accepts (Some ("380" +:+ ds)) = true.
Proof.
  intros H. unfold Phone.accepts, re_match, Phone.pattern.
  rewrite rmatch_Cat, rmatch_Bol_0, rmatch_Cat, rmatch_Opt.
  apply orb_true_iff. right. now apply rmatch_380.
Qed.

(** ** The matcher on code points *)

Section AnyDigits.

Variable decimal : Z → bool.

Local Abbreviation umatch := (Unicode.rmatch decimal).

Lemma umatch_Cat r1 r2 pos s k :
  umatch (Cat r1 r2) pos s k = umatch r1 pos s (fun p t => umatch r2 p t k).
Proof. reflexivity. Qed.

Lemma umatch_Opt r pos s k :
  umatch (Opt r) pos s k = umatch r pos s k || k pos s.
Proof. reflexivity. Qed.

Lemma umatch_Bol_0 s k : umatch Bol 0 s k = k O s.
Proof. reflexivity. Qed.

Lemma umatch_Eol pos s k :
  umatch Eol pos s k = if Unicode.at_eol s then k pos s else false.
Proof. reflexivity. Qed.

Lemma umatch_Lit_cons c a pos s k :
  umatch (Lit c) pos (a :: s) k = if a =? code c then k (S pos) s else false.
Proof. reflexivity. Qed.

Lemma umatch_Rep_0 r pos s k : umatch (Rep 0 r) pos s k = k pos s.
Proof. reflexivity. Qed.

Lemma umatch_Rep_S n r pos s k :
  umatch (Rep (S n) r) pos s k
  = umatch r pos s (fun p t => umatch (Rep n r) p t k).
Proof. reflexivity. Qed.

Lemma umatch_Digit_cons a pos s k :
  umatch Digit pos (a :: s) k = if decimal a then k (S pos) s else false.
Proof. reflexivity. Qed.

Lemma umatch_Lit_inv c pos s k :
  umatch (Lit c) pos s k = true →
  ∃ s', s = code c :: s' ∧ k (S pos) s' = true.
Proof.
  destruct s as [|a s']; simpl; [discriminate|].
  destruct (a =? code c) eqn:E; [|discriminate].
  apply Z.eqb_eq in E. subst a. eauto.
Qed.

Lemma umatch_digits_inv n : ∀ pos s k,
  umatch (Rep n Digit) pos s k = true →
  ∃ ds rest, s = ds ++ rest ∧ length ds = n
             ∧ forallb decimal ds = true ∧ k (n + pos)%nat rest = true.
Proof.
  induction n as [|n IH]; intros pos s k H.
  - rewrite umatch_Rep_0 in H. exists [], s. auto.
  - rewrite umatch_Rep_S in H.
    destruct s as [|a s']; [discriminate|].
    rewrite umatch_Digit_cons in H.
    destruct (decimal a) eqn:Ea; [|discriminate].
    apply IH in H as (ds & rest & -> & Hlen & Hds & Hk).
    exists (a :: ds), rest. simpl. rewrite Ea, Hds, Hlen.
    repeat split; auto. now rewrite Nat.add_succ_r in Hk.
Qed.

Lemma umatch_digits n : ∀ pos ds rest k,
  length ds = n → forallb decimal ds = true →
  umatch (Rep n Digit) pos (ds ++ rest) k = k (n + pos)%nat rest.
Proof.
  induction n as [|n IH]; intros pos ds rest k Hlen Hds.
  - destruct ds; [reflexivity | discriminate].
  - destruct ds as [|a ds]; [discriminate|].
    simpl in Hlen, Hds. apply andb_true_iff in Hds as [Ha Hds].
    rewrite umatch_Rep_S.
    change ((a :: ds) ++ rest) with (a :: (ds ++ rest)).
    rewrite umatch_Digit_cons, Ha.
    rewrite IH by (auto; lia). now rewrite Nat.add_succ_r.
Qed.

Lemma Unicode_at_eol_inv s :
  Unicode.at_eol s = true → s = [] ∨ s = Unicode.of_string LF.
Proof.
  destruct s as [|c [|c' s']]; simpl; auto; [|discriminate].
  intros H. apply Z.eqb_eq in H. subst c. now right.
Qed.

(** What is left of the pattern after the optional plus. *)
Lemma umatch_380_inv pos s :
  umatch (Cat (Lit "3") (Cat (Lit "8") (Cat (Lit "0") (Cat (Rep 9 Digit) Eol))))
    pos s (fun _ _ => true) = true →
  ∃ ds, Unicode.nine_decimals decimal ds = true
        ∧ (s = Unicode.of_string "380" ++ ds
           ∨ s = Unicode.of_string "380" ++ ds ++ Unicode.of_string LF).
Proof.
  intros H.
  rewrite umatch_Cat in H. apply umatch_Lit_inv in H as (s1 & -> & H).
  rewrite umatch_Cat in H. apply umatch_Lit_inv in H as (s2 & -> & H).
  rewrite umatch_Cat in H. apply umatch_Lit_inv in H as (s3 & -> & H).
  rewrite umatch_Cat in H.
  apply umatch_digits_inv in H as (ds & rest & -> & Hlen & Hds & H).
  rewrite umatch_Eol in H.
  destruct (Unicode.at_eol rest) eqn:E; [|discriminate].
  exists ds. split.
  - unfold Unicode.nine_decimals. rewrite Hlen, Hds. reflexivity.
  - apply Unicode_at_eol_inv in E as [-> | ->]; [left | right];
      rewrite ?app_nil_r; reflexivity.
Qed.

Lemma umatch_380 pos ds :
  Unicode.nine_decimals decimal ds = true →
  umatch (Cat (Lit "3") (Cat (Lit "8") (Cat (Lit "0") (Cat (Rep 9 Digit) Eol))))
    pos (Unicode.of_string "380" ++ ds) (fun _ _ => true) = true.
Proof.
  unfold Unicode.nine_decimals. intros H. apply andb_true_iff in H as [Hlen Hds].
  apply Nat.eqb_eq in Hlen.
  change (Unicode.of_string "380" ++ ds)
    with (code "3" :: code "8" :: code "0" :: ds).
  rewrite umatch_Cat, umatch_Lit_cons, Z.eqb_refl.
  rewrite umatch_Cat, umatch_Lit_cons, Z.eqb_refl.
  rewrite umatch_Cat, umatch_Lit_cons, Z.eqb_refl.
  rewrite umatch_Cat, <- (app_nil_r ds).
  rewrite (umatch_digits 9) by auto. reflexivity.
Qed.

Lemma Unicode_accepts_inv s :
  Unicode.Phone.accepts decimal (Some s) = true →
  ∃ ds, Unicode.nine_decimals decimal ds = true
        ∧ (s = Unicode.of_string "+380" ++ ds
           ∨ s = Unicode.of_string "380" ++ ds
           ∨ s = Unicode.of_string "+380" ++ ds ++ Unicode.of_string LF
           ∨ s = Unicode.of_string "380" ++ ds ++ Unicode.of_string LF).
Proof.
  unfold Unicode.Phone.accepts, Unicode.re_match, Phone.pattern. intros H.
  rewrite umatch_Cat, umatch_Bol_0, umatch_Cat, umatch_Opt in H.
  apply orb_true_iff in H as [H | H].
  - apply umatch_Lit_inv in H as (s' & -> & H).
    apply umatch_380_inv in H as (ds & Hds & [-> | ->]); exists ds; auto.
  - apply umatch_380_inv in H as (ds & Hds & [-> | ->]); exists ds; auto.
Qed.

Lemma Unicode_accepts_plus ds :
  Unicode.nine_decimals decimal ds = true →
  Unicode.Phone.accepts decimal (Some (Unicode.of_string "+380" ++ ds)) = true.
Proof.
  intros H. unfold Unicode.Phone.accepts, Unicode.re_match, Phone.pattern.
  rewrite umatch_Cat, umatch_Bol_0, umatch_Cat, umatch_Opt.
  apply orb_true_iff. left.
  change (Unicode.of_string "+380" ++ ds)
    with (code "+" :: (Unicode.of_string "380" ++ ds)).
  rewrite umatch_Lit_cons, Z.eqb_refl. now apply umatch_380.
Qed.

Lemma Unicode_accepts_bare ds :
  Unicode.nine_decimals decimal ds = true →
  Unicode.Phone.accepts decimal (Some (Unicode.of_string "380" ++ ds)) = true.
Proof.
  intros H. unfold Unicode.Phone.accepts, Unicode.re_match, Phone.pattern.
  rewrite umatch_Cat, umatch_Bol_0, umatch_Cat, umatch_Opt.
  apply orb_true_iff. right. now apply umatch_380.
Qed.

(** On Latin-1 text, where the decimal digits are [0-9], the matcher on
    code points is the matcher on strings. *)
Hypothesis decimal_latin1 : ∀ c : ascii, decimal (code c) = is_digit c.

Lemma code_eqb a c : (code a =? code c) = Ascii.eqb a c.
Proof.
  destruct (Ascii.eqb a c) eqn:E.
  - apply Ascii.eqb_eq in E. subst a. apply Z.eqb_refl.
  - apply Z.eqb_neq. intros H. apply Ascii.eqb_neq in E. apply E.
    unfold code in H. apply Nat2Z.inj in H.
    rewrite <- (ascii_nat_embedding a), <- (ascii_nat_embedding c).
    now rewrite H.
Qed.

Lemma Unicode_at_eol_of_string s :
  Unicode.at_eol (Unicode.of_string s) = at_eol s.
Proof.
  destruct s as [|c [|c' s']]; try reflexivity.
  simpl. exact (code_eqb c "010").
Qed.

Lemma umatch_of_string r : ∀ pos s k k',
  (∀ p t, k' p (Unicode.of_string t) = k p t) →
  umatch r pos (Unicode.of_string s) k' = rmatch r pos s k.
Proof.
  induction r as [c| | | |r IH|n r IH|r1 IH1 r2 IH2]; intros pos s k k' Hk.
  - destruct s as [|a s]; [reflexivity|].
    change (Unicode.of_string (String a s)) with (code a :: Unicode.of_string s).
    rewrite umatch_Lit_cons, rmatch_Lit_cons, code_eqb.
    destruct (Ascii.eqb a c); [apply Hk | reflexivity].
  - destruct s as [|a s]; [reflexivity|].
    change (Unicode.of_string (String a s)) with (code a :: Unicode.of_string s).
    rewrite umatch_Digit_cons, rmatch_Digit_cons, decimal_latin1.
    destruct (is_digit a); [apply Hk | reflexivity].
  - simpl. destruct (Nat.eqb pos 0); [apply Hk | reflexivity].
  - rewrite umatch_Eol, rmatch_Eol, Unicode_at_eol_of_string.
    destruct (at_eol s); [apply Hk | reflexivity].
  - rewrite umatch_Opt, rmatch_Opt. now rewrite (IH pos s k k' Hk), Hk.
  - revert pos s. induction n as [|n IHn]; intros pos s.
    + rewrite umatch_Rep_0, rmatch_Rep_0. apply Hk.
    + rewrite umatch_Rep_S, rmatch_Rep_S. apply IH. intros p t. apply IHn.
  - rewrite umatch_Cat, rmatch_Cat. apply IH1. intros p t. now apply IH2.
Qed.

Lemma Unicode_accepts_of_string s :
  Unicode.Phone.accepts decimal (Some (Unicode.of_string s))
  = Phone.accepts (Some s).
Proof.
  unfold Unicode.Phone.accepts, Phone.accepts, Unicode.re_match, re_match.
  now apply umatch_of_string.
Qed.

End AnyDigits.

(** ** Phones *)

Lemma Phone_init_accepted v :
  Phone.accepts v = true → Phone.__init__ v = Ok (Phone.mk v).
Proof.
  intros H. unfold Phone.__init__, Phone.set_value. now rewrite H.
Qed.

Lemma Phone_init_refused v :
  Phone.accepts v = false → Phone.__init__ v = Raise phone_error.
Proof.
  intros H. unfold Phone.__init__, Phone.set_value. now rewrite H.
Qed.

Lemma Phone_init_inv v p :
  Phone.__init__ v = Ok p → p = Phone.mk v ∧ Phone.accepts v = true.
Proof.
  unfold Phone.__init__, Phone.set_value.
  destruct (Phone.accepts v); simpl; [|discriminate].
  intros [= <-]. auto.
Qed.

(** The [add] command on a line of two words, a name and a phone: the
    birthday is [Birthday(None)]. *)
Lemma command_add_two_words today st line name phone :
  split line = [name; phone] →
  command_add today st line
  = match Phone.__init__ (Some phone) with
    | Ok p =>
        Continue
          (print
             (with_ab st
                (AddressBook.add_contact (ab st)
                   (Record.mk (Name.mk name) [p] (Some (Birthday.mk None)))))
             "Contact added")
    | Raise _ =>
        Continue
          (print st "Phone number should be in the format +380XXXXXXXXX")
    end.
Proof.
  intros Hs. unfold command_add, add_from_line. rewrite Hs. simpl.
  unfold Phone.__init__, Phone.set_value.
  destruct (Phone.accepts (Some phone)); reflexivity.
Qed.

(** C1, as the claim has it, fails: a number without the plus sign is a
    phone, and is added, although it is not [+380] and nine digits. *)
Lemma phone_without_plus_accepted :
  (¬ ∃ ds, "380501234567" = "+380" +:+ ds ∧ nine_digits ds = true)
  ∧ Phone.__init__ (Some "380501234567")
    = Ok (Phone.mk (Some "380501234567"))
  ∧ ∀ today st,
      command_add today st "Alice 380501234567"
      = Continue
          (print
             (with_ab st
                (AddressBook.add_contact (ab st)
                   (Record.mk (Name.mk "Alice")
                      [Phone.mk (Some "380501234567")]
                      (Some (Birthday.mk None)))))
             "Contact added").
Proof.
  split; [|split].
  - intros (ds & H & _). discriminate H.
  - reflexivity.
  - intros today st. now rewrite (command_add_two_words _ _ _ "Alice" "380501234567").
Qed.

(** C1, amended.  Whatever the characters of the string: [380] and nine
    decimal digits, with or without a plus sign before them, make a phone,
    the digits being those that [\d] matches, [0-9] and the decimal digits
    of every other script; a string that is not of that form, nor of
    that form with a line feed after it, is refused with the phone's
    [ValueError].  On Latin-1 text, with [0-9] for digits, this is the
    [Phone] of the program's model, and there [add] on a line of a name
    and a phone stores the contact exactly when the phone is made, and
    otherwise prints the error's message and leaves the book as it was. *)
Theorem phone_format_optional_plus (decimal : Z → bool) :
  (∀ s ds,
     Unicode.nine_decimals decimal ds = true →
     s = Unicode.of_string "+380" ++ ds ∨ s = Unicode.of_string "380" ++ ds →
     Unicode.Phone.__init__ decimal (Some s) = Ok (Unicode.Phone.mk (Some s)))
  ∧ (∀ s,
       (∀ ds, Unicode.nine_decimals decimal ds = true →
          s ≠ Unicode.of_string "+380" ++ ds
          ∧ s ≠ Unicode.of_string "380" ++ ds
          ∧ s ≠ Unicode.of_string "+380" ++ ds ++ Unicode.of_string LF
          ∧ s ≠ Unicode.of_string "380" ++ ds ++ Unicode.of_string LF) →
       Unicode.Phone.__init__ decimal (Some s) = Raise phone_error)
  ∧ (∀ s,
       (∀ c : ascii, decimal (code c) = is_digit c) →
       Phone.__init__ (Some s)
       = match Unicode.Phone.__init__ decimal (Some (Unicode.of_string s)) with
         | Ok _ => Ok (Phone.mk (Some s))
         | Raise e => Raise e
         end)
  ∧ (∀ today st line name phone,
       split line = [name; phone] →
       command_add today st line
       = match Phone.__init__ (Some phone) with
         | Ok p =>
             Continue
               (print
                  (with_ab st
                     (AddressBook.add_contact (ab st)
                        (Record.mk (Name.mk name) [p]
                           (Some (Birthday.mk None)))))
                  "Contact added")
         | Raise _ =>
             Continue
               (print st "Phone number should be in the format +380XXXXXXXXX")
         end).
Proof.
  split; [|split; [|split]].
  - intros s ds Hds Hs.
    unfold Unicode.Phone.__init__, Unicode.Phone.set_value.
    destruct Hs as [-> | ->];
      [rewrite Unicode_accepts_plus | rewrite Unicode_accepts_bare];
      auto.
  - intros s Hs.
    unfold Unicode.Phone.__init__, Unicode.Phone.set_value.
    destruct (Unicode.Phone.accepts decimal (Some s)) eqn:E; [|reflexivity].
    apply Unicode_accepts_inv in E as (ds & Hds & E).
    destruct (Hs ds Hds) as (H1 & H2 & H3 & H4).
    destruct E as [E | [E | [E | E]]]; contradiction.
  - intros s Hd.
    unfold Phone.__init__, Phone.set_value, Unicode.Phone.__init__,
      Unicode.Phone.set_value.
    rewrite (Unicode_accepts_of_string decimal Hd).
    now destruct (Phone.accepts (Some s)).
  - intros today st line name phone Hl.
    apply (command_add_two_words _ _ _ _ _ Hl).
Qed.

(** Nine Arabic-Indic digits after [+380] make a phone; a national number
    without [380] does not. *)
Lemma phone_format_optional_plus_witness :
  Unicode.Phone.__init__ Unicode.western_and_arabic_indic
    (Some (Unicode.of_string "+380"
           ++ [1637; 1632; 1633; 1634; 1635; 1636; 1637; 1638; 1639]))
  = Ok (Unicode.Phone.mk
          (Some (Unicode.of_string "+380"
                 ++ [1637; 1632; 1633; 1634; 1635; 1636; 1637; 1638; 1639])))
  ∧ Unicode.Phone.__init__ Unicode.western_and_arabic_indic
      (Some (Unicode.of_string "0501234567"))
    = Raise phone_error
  ∧ Phone.__init__ (Some "+380501234567")
    = match Unicode.Phone.__init__ Unicode.western_and_arabic_indic
              (Some (Unicode.of_string "+380501234567")) with
      | Ok _ => Ok (Phone.mk (Some "+380501234567"))
      | Raise e => Raise e
      end
  ∧ command_add a_tuesday (mkstate AddressBook.__init__ ∅ [])
      "Alice 0501234567"
    = match Phone.__init__ (Some "0501234567") with
      | Ok p =>
          Continue
            (print
               (with_ab (mkstate AddressBook.__init__ ∅ [])
                  (AddressBook.add_contact AddressBook.__init__
                     (Record.mk (Name.mk "Alice") [p]
                        (Some (Birthday.mk None)))))
               "Contact added")
      | Raise _ =>
          Continue
            (print (mkstate AddressBook.__init__ ∅ [])
               "Phone number should be in the format +380XXXXXXXXX")
      end.
Proof.
  destruct (phone_format_optional_plus Unicode.western_and_arabic_indic)
    as (Hyes & Hno & Hlatin & Hadd).
  split; [|split; [|split]].
  - apply (Hyes _ [1637; 1632; 1633; 1634; 1635; 1636; 1637; 1638; 1639]);
      [reflexivity | now left].
  - apply Hno. intros ds _. repeat split; discriminate.
  - apply Hlatin. intros c.
    destruct c as [[] [] [] [] [] [] [] []]; reflexivity.
  - apply Hadd. reflexivity.
Defined.

(** ** Dates *)

Ltac bool_to_Prop :=
  repeat match goal with
         | H : _ && _ = true |- _ => apply andb_true_iff in H as [? ?]
         | H : (_ <=? _) = true |- _ => apply Z.leb_le in H
         | H : (_ <? _) = true |- _ => apply Z.ltb_lt in H
         | H : (_ =? _) = true |- _ => apply Z.eqb_eq in H
         end.

Ltac each_month m :=
  let H := fresh "Hm" in
  assert (H : m = 1 ∨ m = 2 ∨ m = 3 ∨ m = 4 ∨ m = 5 ∨ m = 6 ∨ m = 7
              ∨ m = 8 ∨ m = 9 ∨ m = 10 ∨ m = 11 ∨ m = 12) by lia;
  destruct H as [->|[->|[->|[->|[->|[->|[->|[->|[->|[->|[->| ->]]]]]]]]]]].

Lemma date_new_ok y m d :
  valid_ymd y m d = true → date_new y m d = Ok (mkdate y m d).
Proof.
  unfold valid_ymd, date_new. intros H.
  apply andb_true_iff in H as [H Hd2]. apply andb_true_iff in H as [H Hd1].
  apply andb_true_iff in H as [H Hm2]. apply andb_true_iff in H as [H Hm1].
  now rewrite H, Hm1, Hm2, Hd1, Hd2.
Qed.

Lemma date_new_inv y m d x :
  date_new y m d = Ok x → x = mkdate y m d ∧ valid_ymd y m d = true.
Proof.
  unfold valid_ymd, date_new.
  destruct ((MINYEAR <=? y) && (y <=? MAXYEAR)); simpl; [|discriminate].
  destruct ((1 <=? m) && (m <=? 12)); simpl; [|discriminate].
  destruct (1 <=? d); simpl; [|discriminate].
  destruct (d <=? _days_in_month y m); simpl; [|discriminate].
  intros [= <-]. auto.
Qed.

Lemma days_before_year_succ y :
  _days_before_year (y + 1)
  = _days_before_year y + (if _is_leap y then 366 else 365).
Proof.
  unfold _days_before_year, _is_leap. cbv zeta.
  replace (y + 1 - 1) with y by lia.
  destruct (Z.eqb_spec (y mod 4) 0), (Z.eqb_spec (y mod 100) 0),
    (Z.eqb_spec (y mod 400) 0); simpl; Z.div_mod_to_equations; lia.
Qed.

Lemma date_lt_same_year y m d m' d' :
  date_lt (mkdate y m d) (mkdate y m' d') = true
  ↔ m < m' ∨ (m = m' ∧ d < d').
Proof.
  unfold date_lt. simpl. rewrite Z.ltb_irrefl, Z.eqb_refl. simpl.
  rewrite orb_true_iff, andb_true_iff, !Z.ltb_lt, Z.eqb_eq. tauto.
Qed.

(** A month and day other than 29 February exist in every year. *)
Lemma valid_in_other_year y y' m d :
  valid_ymd y m d = true → ¬ (m = 2 ∧ d = 29) →
  MINYEAR <= y' <= MAXYEAR → valid_ymd y' m d = true.
Proof.
  unfold valid_ymd, MINYEAR, MAXYEAR. intros H Hn Hy'. bool_to_Prop.
  repeat (apply andb_true_iff; split); try (apply Z.leb_le; lia).
  apply Z.leb_le. unfold _days_in_month in *.
  each_month m; simpl in *;
    destruct (_is_leap y), (_is_leap y'); simpl in *; lia.
Qed.

(** *** Dates written as [DDMMYYYY] *)

Ltac each_day d :=
  let H := fresh "Hd" in
  assert (H : d = 1 ∨ d = 2 ∨ d = 3 ∨ d = 4 ∨ d = 5 ∨ d = 6 ∨ d = 7 ∨ d = 8
              ∨ d = 9 ∨ d = 10 ∨ d = 11 ∨ d = 12 ∨ d = 13 ∨ d = 14 ∨ d = 15
              ∨ d = 16 ∨ d = 17 ∨ d = 18 ∨ d = 19 ∨ d = 20 ∨ d = 21 ∨ d = 22
              ∨ d = 23 ∨ d = 24 ∨ d = 25 ∨ d = 26 ∨ d = 27 ∨ d = 28 ∨ d = 29
              ∨ d = 30 ∨ d = 31) by lia;
  repeat (destruct H as [-> | H]); [.. | subst d].

Lemma digit_is_digit k :
  0 <= k <= 9 → is_digit (digit k) = true ∧ code (digit k) - 48 = k.
Proof.
  intros H.
  assert (E : k = 0 ∨ k = 1 ∨ k = 2 ∨ k = 3 ∨ k = 4 ∨ k = 5 ∨ k = 6 ∨ k = 7
              ∨ k = 8 ∨ k = 9) by lia.
  destruct E as [->|[->|[->|[->|[->|[->|[->|[->|[->| ->]]]]]]]]];
    split; reflexivity.
Qed.

Lemma int_two_digits n : 0 <= n <= 99 → int (two_digits n) = n.
Proof.
  intros H. unfold two_digits, int.
  destruct (digit_is_digit (n / 10)) as [H1 K1];
    [Z.div_mod_to_equations; lia|].
  destruct (digit_is_digit (n mod 10)) as [H2 K2];
    [Z.div_mod_to_equations; lia|].
  cbn [int_digits]. rewrite H1, H2, K1, K2. Z.div_mod_to_equations; lia.
Qed.

Lemma int_four_digits y :
  0 <= y <= 9999 →
  chars4 is_digit (four_digits y) = Some (four_digits y, "")
  ∧ int (four_digits y) = y.
Proof.
  intros H. unfold four_digits.
  destruct (digit_is_digit (y / 1000)) as [H1 K1];
    [Z.div_mod_to_equations; lia|].
  destruct (digit_is_digit (y / 100 mod 10)) as [H2 K2];
    [Z.div_mod_to_equations; lia|].
  destruct (digit_is_digit (y / 10 mod 10)) as [H3 K3];
    [Z.div_mod_to_equations; lia|].
  destruct (digit_is_digit (y mod 10)) as [H4 K4];
    [Z.div_mod_to_equations; lia|].
  split.
  - unfold chars4. now rewrite H1, H2, H3, H4.
  - unfold int. cbn [int_digits]. rewrite H1, H2, H3, H4.
    rewrite K1, K2, K3, K4. Z.div_mod_to_equations; lia.
Qed.

(** Each group takes its digits at the first alternative that matches
    them, when the rest of the pattern matches after it. *)
Lemma first_alt_Y {A} y (k : string → string → option A) :
  0 <= y <= 9999 →
  first_alt group_Y (four_digits y) k
  = match k (four_digits y) "" with Some r => Some r | None => None end.
Proof.
  intros Hy. destruct (int_four_digits y Hy) as [HY _].
  unfold group_Y, first_alt. now rewrite HY.
Qed.

Lemma first_alt_m {A} m rest (k : string → string → option A) x :
  1 <= m <= 12 → k (two_digits m) rest = Some x →
  first_alt group_m (two_digits m +:+ rest) k = Some x.
Proof.
  intros Hm. each_month m; vm_compute; intros ->; reflexivity.
Qed.

Lemma first_alt_d {A} d rest (k : string → string → option A) x :
  1 <= d <= 31 → k (two_digits d) rest = Some x →
  first_alt group_d (two_digits d +:+ rest) k = Some x.
Proof.
  intros Hd. each_day d; vm_compute; intros ->; reflexivity.
Qed.

(** [strptime] reads eight digits as day, month and year. *)
Lemma strptime_DDMMYYYY y m d :
  1 <= d <= 31 → 1 <= m <= 12 → 0 <= y <= 9999 →
  strptime_dmY (DDMMYYYY (mkdate y m d)) = date_new y m d.
Proof.
  intros Hd Hm Hy. destruct (int_four_digits y Hy) as [_ HI].
  unfold DDMMYYYY, strptime_dmY, strptime_match. cbn [year month day].
  rewrite (first_alt_d d _ _ (two_digits d, two_digits m, four_digits y, ""))
    by (auto; apply first_alt_m; auto; now rewrite first_alt_Y).
  now rewrite HI, !int_two_digits by lia.
Qed.

Lemma valid_ymd_bounds y m d :
  valid_ymd y m d = true → 1 <= y <= 9999 ∧ 1 <= m <= 12 ∧ 1 <= d <= 31.
Proof.
  unfold valid_ymd, MINYEAR, MAXYEAR, _days_in_month. intros H. bool_to_Prop.
  repeat split; try lia.
  each_month m; simpl in *; destruct (_is_leap y); simpl in *; lia.
Qed.

(** ** Birthdays *)

(** What the setter stores for a string that [strptime] reads as [d]. *)
Lemma Birthday_init_parsed today s d :
  truthy (Some s) = true → strptime_dmY s = Ok d →
  Birthday.__init__ today (Some s)
  = if date_lt d today
    then match date_replace_year d (year today + 1) with
         | Ok d' => Ok (Birthday.mk (Some d'))
         | Raise _ =>
             Raise (ValueError "Invalid birthday date format. Use DDMMYYYY.")
         end
    else Ok (Birthday.mk (Some d)).
Proof.
  intros Ht Hp. unfold Birthday.__init__, Birthday.set_value.
  rewrite Ht. simpl. rewrite Hp. simpl.
  destruct (date_lt d today); [|reflexivity].
  destruct (date_replace_year d (year today + 1)) as [d'|e] eqn:E;
    [reflexivity|].
  simpl. unfold date_replace_year, date_new in E.
  repeat match type of E with
         | (if ?c then _ else _) = _ => destruct c
         end; inversion E; reflexivity.
Qed.

(** A birthday of an earlier year is stored with the year after this one,
    whether or not its month and day are still to come. *)
Lemma Birthday_init_earlier_year today s d :
  truthy (Some s) = true → strptime_dmY s = Ok d →
  year d < year today →
  valid_ymd (year today + 1) (month d) (day d) = true →
  Birthday.__init__ today (Some s)
  = Ok (Birthday.mk (Some (mkdate (year today + 1) (month d) (day d)))).
Proof.
  intros Ht Hp Hy Hv. rewrite (Birthday_init_parsed _ _ _ Ht Hp).
  assert (Hlt : date_lt d today = true).
  { unfold date_lt. apply orb_true_iff. left. now apply Z.ltb_lt. }
  rewrite Hlt. unfold date_replace_year. now rewrite (date_new_ok _ _ _ Hv).
Qed.

(** The date of birth of a contact, a day of an earlier year other than
    29 February, is stored with the year after this one: also when its
    month and day are still to come this year. *)
Lemma Birthday_init_date_of_birth today x :
  valid_date x = true → valid_date today = true →
  year x < year today < MAXYEAR → ¬ (month x = 2 ∧ day x = 29) →
  Birthday.__init__ today (Some (DDMMYYYY x))
  = Ok (Birthday.mk (Some (mkdate (year today + 1) (month x) (day x)))).
Proof.
  destruct x as [y m d]. unfold valid_date. cbn [year month day].
  intros Hx Ht Hy Hn.
  destruct (valid_ymd_bounds _ _ _ Hx) as (By & Bm & Bd).
  destruct (valid_ymd_bounds _ _ _ Ht) as (Ty & _).
  apply (Birthday_init_earlier_year today _ (mkdate y m d)).
  - reflexivity.
  - rewrite strptime_DDMMYYYY by lia. now apply date_new_ok.
  - cbn [year]. lia.
  - cbn [year month day]. apply (valid_in_other_year y); auto.
    unfold MINYEAR, MAXYEAR in *. lia.
Qed.

(** C2: on 3 November 2026 the birthday 15 December 2020 has not yet come
    this year, and is stored with the year 2027, not 2026; the scenario
    of the spec, 15 June entered on a day before 15 June, gives the next
    year as well; and a date entered with a coming year keeps that year. *)
Theorem birthday_year_bumped_before_occurrence :
  occurred_this_year a_tuesday (mkdate 2020 12 15) = false
  ∧ Birthday.__init__ a_tuesday (Some "15122020")
    = Ok (Birthday.mk (Some (mkdate 2027 12 15)))
  ∧ occurred_this_year (mkdate 2026 3 1) (mkdate 2020 6 15) = false
  ∧ Birthday.__init__ (mkdate 2026 3 1) (Some "15062020")
    = Ok (Birthday.mk (Some (mkdate 2027 6 15)))
  ∧ Birthday.__init__ a_tuesday (Some "15062030")
    = Ok (Birthday.mk (Some (mkdate 2030 6 15))).
Proof. repeat split; vm_compute; reflexivity. Qed.

(** [Birthday(None)] assigns no [_value]. *)
Lemma Birthday_init_None today :
  Birthday.__init__ today None = Ok (Birthday.mk None).
Proof. reflexivity. Qed.

(** ** Days to the birthday *)

(** The bound of [days_to_birthday], for every birthday but 29 February
    and every day but those of the last year of the calendar. *)
Lemma days_to_birthday_in_range today r b v :
  valid_date today = true → valid_date v = true →
  Record.birthday r = Some b → Birthday._value b = Some v →
  ¬ (month v = 2 ∧ day v = 29) → year today < MAXYEAR →
  ∃ n, Record.days_to_birthday today r = Ok (Some n) ∧ 0 <= n < 366.
Proof.
  destruct today as [ty tm td], v as [vy vm vd].
  unfold valid_date. simpl. intros Ht Hv Hb Hbv Hn Hy.
  assert (Hty : MINYEAR <= ty <= MAXYEAR).
  { unfold valid_ymd in Ht. bool_to_Prop. lia. }
  assert (Hty' : MINYEAR <= ty + 1 <= MAXYEAR)
    by (unfold MINYEAR, MAXYEAR in *; lia).
  pose proof (valid_in_other_year _ _ _ _ Hv Hn Hty) as V0.
  pose proof (valid_in_other_year _ _ _ _ Hv Hn Hty') as V1.
  unfold Record.days_to_birthday, Birthday.value. rewrite Hb, Hbv. simpl.
  rewrite (date_new_ok _ _ _ V0). simpl.
  destruct (date_lt (mkdate ty vm vd) (mkdate ty tm td)) eqn:Elt.
  - rewrite (date_new_ok _ _ _ V1). simpl. eexists; split; [reflexivity|].
    apply date_lt_same_year in Elt.
    unfold date_sub_days, toordinal, _ymd2ord, _days_before_month. simpl.
    rewrite days_before_year_succ.
    unfold valid_ymd, _days_in_month, MINYEAR, MAXYEAR in *. bool_to_Prop.
    generalize dependent (_days_before_year ty). intros dby.
    each_month vm; each_month tm; simpl in *;
      destruct (_is_leap ty), (_is_leap (ty + 1)), (_is_leap vy);
      simpl in *; lia.
  - simpl. eexists; split; [reflexivity|].
    assert (Hge : ¬ (vm < tm ∨ (vm = tm ∧ vd < td))).
    { intros H. apply (proj2 (date_lt_same_year ty vm vd tm td)) in H.
      congruence. }
    unfold date_sub_days, toordinal, _ymd2ord, _days_before_month. simpl.
    unfold valid_ymd, _days_in_month, MINYEAR, MAXYEAR in *. bool_to_Prop.
    generalize dependent (_days_before_year ty). intros dby.
    each_month vm; each_month tm; simpl in *;
      destruct (_is_leap ty), (_is_leap vy); simpl in *; lia.
Qed.

(** C7: a birthday entered as 29 February 2028 is stored as that day, a
    valid date; in 2026 [days_to_birthday] builds 29 February 2026 and
    raises instead of returning a number, and [show all] ends the
    process. *)
Theorem days_to_birthday_leap_day_raises :
  Birthday.__init__ a_tuesday (Some "29022028")
  = Ok (Birthday.mk (Some (mkdate 2028 2 29)))
  ∧ valid_date (mkdate 2028 2 29) = true
  ∧ valid_date a_tuesday = true
  ∧ Record.days_to_birthday a_tuesday bob
    = Raise (ValueError "day is out of range for month")
  ∧ how (main_ref a_tuesday ∅
           ["add"; "Bob +380501234567 29022028"; "show all"])
    = Uncaught (ValueError "day is out of range for month").
Proof. repeat split; vm_compute; reflexivity. Qed.

(** A record whose [birthday] is [None] has no day count. *)
Lemma days_to_birthday_None today r :
  Record.birthday r = None → Record.days_to_birthday today r = Ok None.
Proof. intros H. unfold Record.days_to_birthday. now rewrite H. Qed.

(** A record that holds [Birthday(None)] cannot be asked for its days. *)
Lemma days_to_birthday_unset today r :
  Record.birthday r = Some (Birthday.mk None) →
  Record.days_to_birthday today r
  = Raise (attribute_error "Birthday" "_value").
Proof. intros H. unfold Record.days_to_birthday. now rewrite H. Qed.

(** C8: the [add] command without a birthday stores [Birthday(None)], on
    which [days_to_birthday] raises [AttributeError] instead of returning
    [None]; [show all] then ends the process. *)
Theorem days_to_birthday_after_add_without_birthday_raises :
  command_add a_tuesday (mkstate AddressBook.__init__ ∅ [])
    "Alice +380501234567"
  = Continue (mkstate alice_book ∅ [Print "Contact added"])
  ∧ Record.days_to_birthday a_tuesday alice
    = Raise (attribute_error "Birthday" "_value")
  ∧ how (main_ref a_tuesday ∅ ["add"; "Alice +380501234567"; "show all"])
    = Uncaught (attribute_error "Birthday" "_value").
Proof. repeat split; vm_compute; reflexivity. Qed.

(** ** Search *)

Lemma search_phones_cons query phone phones :
  AddressBook.search_phones query (phone :: phones)
  = Raise (attribute_error "Phone" "phone_number").
Proof. reflexivity. Qed.

(** Where every record either matches by name or has no phone, [search]
    is the filter by name. *)
Lemma search_records_by_name query records : ∀ results,
  (∀ r, r ∈ records → name_matches query r = true ∨ Record.phones r = []) →
  AddressBook.search_records query records results
  = Ok (results ++ List.filter (name_matches query) records).
Proof.
  induction records as [|r records IH]; intros results H; simpl.
  - now rewrite app_nil_r.
  - assert (Hr := H r (list_elem_of_here _ _)).
    assert (H' : ∀ r', r' ∈ records →
                 name_matches query r' = true ∨ Record.phones r' = []).
    { intros r' Hin. apply H. now apply list_elem_of_further. }
    fold (name_matches query r).
    destruct (name_matches query r) eqn:E.
    + rewrite IH by assumption. now rewrite <- app_assoc.
    + destruct Hr as [Hr | Hr]; [discriminate|]. rewrite Hr. simpl.
      now rewrite IH by assumption.
Qed.

(** A record with a phone that does not match by name makes [search]
    raise. *)
Lemma search_records_raises query records : ∀ results r,
  r ∈ records → name_matches query r = false → Record.phones r ≠ [] →
  AddressBook.search_records query records results
  = Raise (attribute_error "Phone" "phone_number").
Proof.
  induction records as [|r0 records IH]; intros results r Hin Hn Hp.
  - inversion Hin.
  - simpl. fold (name_matches query r0).
    destruct (name_matches query r0) eqn:E0.
    + apply (IH _ r); auto. inversion Hin; subst; [congruence | assumption].
    + destruct (Record.phones r0) as [|p ps] eqn:Ep.
      * simpl. apply (IH _ r); auto.
        inversion Hin; subst; [contradiction | assumption].
      * reflexivity.
Qed.

(** C3: with Alice and her phone in the book, [search("380501")] raises
    [AttributeError] on [phone.phone_number] instead of returning her
    record, and the [search] command ends the process. *)
Theorem search_by_phone_raises :
  name_matches (lower "380501") alice = false
  ∧ str_in (lower "380501") (lower "+380501234567") = true
  ∧ AddressBook.search alice_book "380501"
    = Raise (attribute_error "Phone" "phone_number")
  ∧ how (main_ref a_tuesday ∅
           ["add"; "Alice +380501234567"; "search 380501"])
    = Uncaught (attribute_error "Phone" "phone_number").
Proof. repeat split; vm_compute; reflexivity. Qed.

(** ** The reference serializer decodes what it encodes *)

Lemma codec_positive : codec_ok Codec.enc_positive Codec.dec_positive.
Proof.
  intros p rest. induction p as [p IH | p IH |]; simpl;
    [rewrite IH | rewrite IH |]; reflexivity.
Qed.

Lemma codec_Z : codec_ok Codec.enc_Z Codec.dec_Z.
Proof.
  intros [|p|p] rest; simpl; [reflexivity | |];
    unfold Codec.dec_bind; rewrite codec_positive; reflexivity.
Qed.

Lemma codec_nat : codec_ok Codec.enc_nat Codec.dec_nat.
Proof.
  intros n rest. unfold Codec.enc_nat, Codec.dec_nat, Codec.dec_bind.
  rewrite codec_Z. unfold Codec.dec_ret. now rewrite Nat2Z.id.
Qed.

Section Codecs.

Context {A : Type} (enc : A → bytes) (dec : Codec.decoder A).
Hypothesis enc_dec : codec_ok enc dec.

Lemma codec_items l rest :
  Codec.dec_items dec (length l) (concat (map enc l) ++ rest) = Some (l, rest).
Proof.
  induction l as [|x l IH]; simpl; [reflexivity|].
  unfold Codec.dec_bind at 1. rewrite <- app_assoc, enc_dec.
  unfold Codec.dec_bind. now rewrite IH.
Qed.

Lemma codec_list : codec_ok (Codec.enc_list enc) (Codec.dec_list dec).
Proof.
  intros l rest. unfold Codec.enc_list, Codec.dec_list, Codec.dec_bind.
  rewrite <- app_assoc, codec_nat. apply codec_items.
Qed.

Lemma codec_option : codec_ok (Codec.enc_option enc) (Codec.dec_option dec).
Proof.
  intros [x|] rest; simpl; [|reflexivity].
  unfold Codec.dec_bind. now rewrite enc_dec.
Qed.

End Codecs.

Lemma codec_ascii : codec_ok Codec.enc_ascii Codec.dec_ascii.
Proof.
  intros c rest. simpl. now rewrite ascii_of_byte_of_ascii.
Qed.

Lemma codec_string : codec_ok Codec.enc_string Codec.dec_string.
Proof.
  intros s rest. unfold Codec.enc_string, Codec.dec_string, Codec.dec_bind.
  rewrite (codec_list _ _ codec_ascii). unfold Codec.dec_ret.
  now rewrite string_of_list_ascii_of_string.
Qed.

Lemma codec_date : codec_ok Codec.enc_date Codec.dec_date.
Proof.
  intros [y m d] rest. unfold Codec.enc_date, Codec.dec_date, Codec.dec_bind.
  simpl. rewrite <- !app_assoc. now rewrite !codec_Z.
Qed.

Lemma codec_phone : codec_ok Codec.enc_phone Codec.dec_phone.
Proof.
  intros [v] rest. unfold Codec.enc_phone, Codec.dec_phone, Codec.dec_bind.
  simpl. now rewrite (codec_option _ _ codec_string).
Qed.

Lemma codec_birthday : codec_ok Codec.enc_birthday Codec.dec_birthday.
Proof.
  intros [v] rest.
  unfold Codec.enc_birthday, Codec.dec_birthday, Codec.dec_bind.
  simpl. now rewrite (codec_option _ _ codec_date).
Qed.

Lemma codec_record : codec_ok Codec.enc_record Codec.dec_record.
Proof.
  intros [[n] ps b] rest.
  unfold Codec.enc_record, Codec.dec_record, Codec.dec_bind. simpl.
  rewrite <- !app_assoc, codec_string.
  rewrite (codec_list _ _ codec_phone).
  now rewrite (codec_option _ _ codec_birthday).
Qed.

Lemma codec_entry : codec_ok Codec.enc_entry Codec.dec_entry.
Proof.
  intros [k r] rest. unfold Codec.enc_entry, Codec.dec_entry, Codec.dec_bind.
  simpl. rewrite <- !app_assoc, codec_string. now rewrite codec_record.
Qed.

Lemma Codec_loads_dumps d : Codec.loads (Codec.dumps d) = Ok d.
Proof.
  unfold Codec.loads, Codec.dumps.
  rewrite <- (app_nil_r (Codec.enc_list Codec.enc_entry d)).
  now rewrite (codec_list _ _ codec_entry).
Qed.


(** ** Saving and loading *)

Lemma AddressBook_eta (self : AddressBook.t) :
  AddressBook.mk (AddressBook.data self) = self.
Proof. now destruct self. Qed.

Lemma load_from_file_found loads self filename (fs : filesystem) content :
  fs !! filename = Some content →
  AddressBook.load_from_file loads self filename fs
  = match loads content with
    | Ok d => Ok (AddressBook.mk d)
    | Raise (FileNotFoundError _) => Ok self
    | Raise e => Raise e
    end.
Proof.
  intros H. unfold AddressBook.load_from_file, open_rb. rewrite H. simpl.
  destruct (loads content) as [d|e]; [reflexivity|]. now destruct e.
Qed.

Lemma load_from_file_missing loads self filename (fs : filesystem) :
  fs !! filename = None →
  AddressBook.load_from_file loads self filename fs = Ok self.
Proof.
  intros H. unfold AddressBook.load_from_file, open_rb. now rewrite H.
Qed.

Section RoundTrip.

Variable dumps : dict Record.t → bytes.
Variable loads : bytes → result (dict Record.t).

(** What the program needs of [pickle]. *)
Hypothesis loads_dumps : ∀ d, loads (dumps d) = Ok d.

(** C4: whatever the book [self] holds and in whatever order, and whatever
    the book [other] that loads held before, loading the file that
    [save_to_file] wrote gives the mapping of [self]: the same keys in
    the same order, each with the same name, phones and birthday. *)
Theorem load_save_round_trip self other filename (fs : filesystem) :
  AddressBook.load_from_file loads other filename
    (AddressBook.save_to_file dumps self filename fs)
  = Ok self.
Proof.
  unfold AddressBook.save_to_file.
  rewrite (load_from_file_found _ _ _ _ (dumps (AddressBook.data self)))
    by apply lookup_insert_eq.
  rewrite loads_dumps. now rewrite AddressBook_eta.
Qed.

(** The [save] command followed by the [load] command keeps the book. *)
Lemma load_command_after_save st :
  command_load loads (save dumps st)
  = Continue (print (save dumps st) "Address book loaded").
Proof.
  unfold command_load, save, AddressBook.save_to_file. cbn [ab fs].
  rewrite (load_from_file_found _ _ _ _ (dumps (AddressBook.data (ab st))))
    by apply lookup_insert_eq.
  rewrite loads_dumps, AddressBook_eta. reflexivity.
Qed.

End RoundTrip.

Lemma load_save_round_trip_witness :
  AddressBook.load_from_file Codec.loads AddressBook.__init__ file_name
    (AddressBook.save_to_file Codec.dumps alice_book file_name ∅)
  = Ok alice_book.
Proof.
  apply (load_save_round_trip Codec.dumps Codec.loads Codec_loads_dumps).
Defined.

(** C5, as the claim has it, fails: the [load] command with no file on
    disk leaves a book that holds Alice as it is, not empty. *)
Lemma load_missing_file_not_empty :
  (∅ : filesystem) !! file_name = None
  ∧ AddressBook.load_from_file Codec.loads alice_book file_name ∅
    = Ok alice_book
  ∧ AddressBook.data alice_book ≠ []
  ∧ command_load Codec.loads (mkstate alice_book ∅ [])
    = Continue (mkstate alice_book ∅ [Print "Address book loaded"]).
Proof. repeat split; try reflexivity. discriminate. Qed.

(** C5, amended: where the file does not exist, [load_from_file] raises
    nothing and leaves the book as it was; the book is the empty one when
    [main] loads at its start. *)
Theorem load_missing_file_keeps_book :
  (∀ loads self filename (fs : filesystem),
     fs !! filename = None →
     AddressBook.load_from_file loads self filename fs = Ok self)
  ∧ (∀ dumps loads today (files : filesystem) stdin,
       files !! file_name = None →
       main dumps loads today files stdin
       = loop dumps loads today stdin
           (mkstate (AddressBook.mk []) files [Print "Hello!"])).
Proof.
  split.
  - intros. now apply load_from_file_missing.
  - intros dumps loads today files stdin H. unfold main. simpl.
    now rewrite (load_from_file_missing _ _ _ _ H).
Qed.

Lemma load_missing_file_keeps_book_witness :
  AddressBook.load_from_file Codec.loads AddressBook.__init__ file_name ∅
  = Ok (AddressBook.mk []).
Proof.
  apply (proj1 load_missing_file_keeps_book). reflexivity.
Defined.

(** C9, as the claim has it, fails: an empty file, which is no pickle,
    ends the process, at the start of [main] and at the [load] command
    alike; the [EOFError] of [pickle.load] meets no handler. *)
Lemma corrupt_file_ends_process :
  Codec.loads [] = Raise EOFError
  ∧ main_ref a_tuesday {[ file_name := [] ]} ["hello"; "exit"]
    = mkrun (mkstate AddressBook.__init__ {[ file_name := [] ]} [])
        (Uncaught EOFError)
  ∧ command_load Codec.loads (mkstate alice_book {[ file_name := [] ]} [])
    = Crash (mkstate alice_book {[ file_name := [] ]} []) EOFError.
Proof. repeat split; vm_compute; reflexivity. Qed.

(** C9, amended: where the file exists and [pickle.load] raises on it an
    exception [e] other than [FileNotFoundError], [load_from_file] raises
    that same [e] to its caller: the failure is not passed over in
    silence, as that of a missing file is. *)
Theorem load_corrupt_file_raises :
  ∀ loads self filename (fs : filesystem) content e,
    fs !! filename = Some content → loads content = Raise e →
    (∀ path, e ≠ FileNotFoundError path) →
    AddressBook.load_from_file loads self filename fs = Raise e.
Proof.
  intros loads self filename fs content e Hf Hl He.
  rewrite (load_from_file_found _ _ _ _ _ Hf), Hl.
  destruct e; try reflexivity. now destruct (He path).
Qed.

Lemma load_corrupt_file_raises_witness :
  AddressBook.load_from_file Codec.loads alice_book file_name
    {[ file_name := [] ]}
  = Raise EOFError.
Proof.
  apply (load_corrupt_file_raises Codec.loads alice_book file_name
           {[ file_name := [] ]} []); [reflexivity | reflexivity |].
  intros path. discriminate.
Defined.

(** ** Dicts *)

Lemma dict_get_set_same {V} (d : dict V) k v :
  dict_get (dict_set d k v) k = Some v.
Proof.
  induction d as [|[k' v'] d IH]; simpl.
  - now rewrite String.eqb_refl.
  - destruct (String.eqb k' k) eqn:E; simpl; now rewrite E.
Qed.

Lemma dict_get_set_other {V} (d : dict V) k k' v :
  k ≠ k' → dict_get (dict_set d k v) k' = dict_get d k'.
Proof.
  intros Hne. induction d as [|[k0 v0] d IH]; simpl.
  - destruct (String.eqb k k') eqn:E; [|reflexivity].
    apply String.eqb_eq in E. contradiction.
  - destruct (String.eqb k0 k) eqn:E; simpl.
    + apply String.eqb_eq in E. subst k0.
      destruct (String.eqb k k') eqn:E'; [|reflexivity].
      apply String.eqb_eq in E'. contradiction.
    + now rewrite IH.
Qed.

Lemma dict_keys_set_present {V} (d : dict V) k v v0 :
  dict_get d k = Some v0 → dict_keys (dict_set d k v) = dict_keys d.
Proof.
  unfold dict_keys.
  induction d as [|[k' v'] d IH]; simpl; [discriminate|].
  destruct (String.eqb k' k) eqn:E; simpl; [reflexivity|].
  intros H. f_equal. now apply IH.
Qed.

Lemma dict_set_twice {V} (d : dict V) k v :
  dict_set (dict_set d k v) k v = dict_set d k v.
Proof.
  induction d as [|[k' v'] d IH]; simpl.
  - now rewrite String.eqb_refl.
  - destruct (String.eqb k' k) eqn:E; simpl; rewrite E; [reflexivity|].
    now rewrite IH.
Qed.

Lemma Forall_dict_get {V} (P : string * V → Prop) (Q : V → Prop) d k v :
  (∀ e, P e → Q (snd e)) →
  Forall P d → dict_get d k = Some v → Q v.
Proof.
  intros HPQ H. induction H as [|[k' v'] d Hx Hd IH]; simpl; [discriminate|].
  destruct (String.eqb k' k); [|assumption].
  intros [= <-]. apply (HPQ _ Hx).
Qed.

Lemma Forall_dict_set {V} (Q : V → Prop) (d : dict V) k v :
  Forall (fun e => Q (snd e)) d → Q v →
  Forall (fun e => Q (snd e)) (dict_set d k v).
Proof.
  intros H Hv. induction H as [|[k' v'] d Hx Hd IH]; simpl.
  - repeat constructor. exact Hv.
  - destruct (String.eqb k' k); constructor; assumption.
Qed.

Lemma Forall_dict_del {V} (P : string * V → Prop) (d d' : dict V) k :
  Forall P d → dict_del d k = Some d' → Forall P d'.
Proof.
  intros H. revert d'. induction H as [|[k' v'] d Hx Hd IH]; simpl;
    intros d'; [discriminate|].
  destruct (String.eqb k' k).
  - now intros [= <-].
  - destruct (dict_del d k) as [d''|]; [|discriminate].
    intros [= <-]. constructor; auto.
Qed.

Lemma py_index_lt {A} (l : list A) i n :
  py_index l i = Some n → (n < length l)%nat.
Proof.
  unfold py_index.
  destruct ((0 <=? i) && (i <? Z.of_nat (length l))) eqn:E1.
  - intros [= <-]. bool_to_Prop. lia.
  - destruct ((- Z.of_nat (length l) <=? i) && (i <? 0)) eqn:E2;
      [|discriminate].
    intros [= <-]. bool_to_Prop. lia.
Qed.

(** ** The phones of a book stay valid *)

Lemma phones_valid_get d k r :
  phones_valid d → dict_get d k = Some r → record_phones_valid r.
Proof.
  intros H. apply (Forall_dict_get _ record_phones_valid _ _ _ (fun e He => He) H).
Qed.

Lemma phones_valid_set d k r :
  phones_valid d → record_phones_valid r → phones_valid (dict_set d k r).
Proof. apply (Forall_dict_set record_phones_valid). Qed.

Lemma add_phone_valid r phone r' :
  record_phones_valid r → Record.add_phone r phone = Ok r' →
  record_phones_valid r'.
Proof.
  unfold Record.add_phone, record_phones_valid. intros H.
  destruct (Phone.__init__ phone) as [p|e] eqn:E; simpl; [|discriminate].
  intros [= <-]. simpl. apply Forall_app. split; [assumption|].
  apply Phone_init_inv in E as [-> E]. repeat constructor. exact E.
Qed.

Lemma edit_phone_valid r index phone r' :
  record_phones_valid r → Record.edit_phone r index phone = Ok r' →
  record_phones_valid r'.
Proof.
  unfold Record.edit_phone, record_phones_valid. intros H.
  destruct (Phone.__init__ phone) as [p|e] eqn:E; simpl; [|discriminate].
  destruct (py_index (Record.phones r) index) as [i|]; [|discriminate].
  intros [= <-]. simpl. apply Forall_insert; [assumption|].
  now apply Phone_init_inv in E as [-> E].
Qed.

Lemma delete_phone_valid r index r' :
  record_phones_valid r → Record.delete_phone r index = Ok r' →
  record_phones_valid r'.
Proof.
  unfold Record.delete_phone, record_phones_valid. intros H.
  destruct (py_index (Record.phones r) index) as [i|]; [|discriminate].
  intros [= <-]. simpl. now apply Forall_delete.
Qed.

Lemma on_record_valid ab name method ab' :
  (∀ r r', record_phones_valid r → method r = Ok r' → record_phones_valid r') →
  phones_valid (AddressBook.data ab) → on_record ab name method = Ok ab' →
  phones_valid (AddressBook.data ab').
Proof.
  intros Hm H. unfold on_record.
  destruct (dict_get (AddressBook.data ab) name) as [r|] eqn:Eg;
    [|discriminate].
  destruct (method r) as [r'|e] eqn:Em; simpl; [|discriminate].
  intros [= <-]. simpl. apply phones_valid_set; [assumption|].
  apply (Hm r r'); [|assumption]. exact (phones_valid_get _ name _ H Eg).
Qed.

Lemma add_contact_valid ab r :
  phones_valid (AddressBook.data ab) → record_phones_valid r →
  phones_valid (AddressBook.data (AddressBook.add_contact ab r)).
Proof. intros. now apply phones_valid_set. Qed.

Lemma edit_contact_valid ab name phone ab' :
  phones_valid (AddressBook.data ab) →
  AddressBook.edit_contact ab name phone = Ok ab' →
  phones_valid (AddressBook.data ab').
Proof.
  intros H. unfold AddressBook.edit_contact.
  destruct (dict_get (AddressBook.data ab) name) as [r|] eqn:Eg;
    [|discriminate].
  destruct (Record.edit_phone r 0 phone) as [r'|e] eqn:Em; simpl;
    [|discriminate].
  intros [= <-].
  assert (Hr' : record_phones_valid r').
  { apply (edit_phone_valid r 0 phone); [|assumption].
    exact (phones_valid_get _ name _ H Eg). }
  apply add_contact_valid; [|assumption]. now apply phones_valid_set.
Qed.

Lemma add_from_line_valid today ab line ab' :
  phones_valid (AddressBook.data ab) → add_from_line today ab line = Ok ab' →
  phones_valid (AddressBook.data ab').
Proof.
  intros H. unfold add_from_line.
  destruct (Z.of_nat (length (split line)) <? 2); [discriminate|].
  destruct (Phone.__init__ (Some (nth 1 (split line) ""))) as [p|e] eqn:Ep;
    simpl; [|discriminate].
  destruct (Birthday.__init__ today (split line !! 2%nat)) as [b|e];
    simpl; [|discriminate].
  intros [= <-]. apply add_contact_valid; [assumption|].
  apply Phone_init_inv in Ep as [-> Ep]. repeat constructor. exact Ep.
Qed.

Lemma add_contact_function_valid ab name phone ab' msg :
  phones_valid (AddressBook.data ab) →
  add_contact ab name phone = Ok (ab', msg) →
  phones_valid (AddressBook.data ab').
Proof.
  intros H. unfold add_contact, input_error.
  destruct (Phone.__init__ phone) as [p|e] eqn:Ep; simpl.
  - intros [= <- _]. apply add_contact_valid; [assumption|].
    apply Phone_init_inv in Ep as [-> Ep]. repeat constructor. exact Ep.
  - destruct e; simpl; intros [= <- _] || discriminate; assumption.
Qed.

Section Invariant.

Variable dumps : dict Record.t → bytes.
Variable loads : bytes → result (dict Record.t).
Variable today : date.

Hypothesis loads_dumps : ∀ d, loads (dumps d) = Ok d.

Lemma save_to_file_valid ab filename (fs : filesystem) :
  phones_valid (AddressBook.data ab) → files_valid loads fs →
  files_valid loads (AddressBook.save_to_file dumps ab filename fs).
Proof.
  intros Hab Hfs path content d. unfold AddressBook.save_to_file.
  destruct (decide (filename = path)) as [<- | Hne].
  - rewrite lookup_insert_eq. intros [= <-]. rewrite loads_dumps.
    now intros [= <-].
  - rewrite lookup_insert_ne by assumption. apply Hfs.
Qed.

Lemma load_from_file_valid ab filename (fs : filesystem) ab' :
  phones_valid (AddressBook.data ab) → files_valid loads fs →
  AddressBook.load_from_file loads ab filename fs = Ok ab' →
  phones_valid (AddressBook.data ab').
Proof.
  intros Hab Hfs. destruct (fs !! filename) as [content|] eqn:E.
  - rewrite (load_from_file_found _ _ _ _ _ E).
    destruct (loads content) as [d|e] eqn:El.
    + intros [= <-]. simpl. exact (Hfs _ _ _ E El).
    + destruct e; try discriminate. now intros [= <-].
  - rewrite (load_from_file_missing _ _ _ _ E). now intros [= <-].
Qed.

Lemma after_valid ab c :
  phones_valid (AddressBook.data ab) →
  (∀ ab', c = Ok ab' → phones_valid (AddressBook.data ab')) →
  phones_valid (AddressBook.data (after ab c)).
Proof. intros H Hc. destruct c as [ab'|e]; simpl; auto. Qed.

(** Each operation keeps the phones of the book and of the files valid. *)
Lemma perform_valid op ab (fs : filesystem) :
  phones_valid (AddressBook.data ab) → files_valid loads fs →
  phones_valid (AddressBook.data (fst (perform dumps loads today op (ab, fs))))
  ∧ files_valid loads (snd (perform dumps loads today op (ab, fs))).
Proof.
  intros Hab Hfs.
  destruct op; simpl; (split; [|try assumption]);
    try (apply after_valid; [assumption|]; intros ab').
  - now apply add_from_line_valid.
  - destruct (add_contact ab name phone) as [[ab1 msg]|e] eqn:E; simpl;
      [|discriminate].
    intros [= <-]. now apply (add_contact_function_valid ab name phone ab1 msg).
  - apply on_record_valid; [|assumption].
    intros r r'. apply add_phone_valid.
  - apply on_record_valid; [|assumption].
    intros r r'. apply edit_phone_valid.
  - now apply edit_contact_valid.
  - apply on_record_valid; [|assumption].
    intros r r'. apply delete_phone_valid.
  - unfold AddressBook.delete_contact.
    destruct (dict_del (AddressBook.data ab) name) as [d|] eqn:E;
      [|discriminate].
    intros [= <-]. simpl. exact (Forall_dict_del _ _ _ _ Hab E).
  - assumption.
  - now apply save_to_file_valid.
  - now apply load_from_file_valid.
Qed.

Lemma perform_all_valid ops : ∀ ab (fs : filesystem),
  phones_valid (AddressBook.data ab) → files_valid loads fs →
  phones_valid
    (AddressBook.data (fst (perform_all dumps loads today ops (ab, fs)))).
Proof.
  induction ops as [|op ops IH]; intros ab fs Hab Hfs; [assumption|].
  change (perform_all dumps loads today (op :: ops) (ab, fs))
    with (perform_all dumps loads today ops
            (perform dumps loads today op (ab, fs))).
  destruct (perform_valid op ab fs Hab Hfs) as [H1 H2].
  destruct (perform dumps loads today op (ab, fs)) as [ab1 fs1].
  now apply IH.
Qed.

(** C6, amended: from the empty book, after any sequence of [add],
    [add_phone], [edit_phone], [delete_phone], [delete], [save] and
    [load], every phone of every contact holds a value that [Phone]'s
    setter accepted, provided each pickle on disk at the start holds only
    such phones (as every file written by [save_to_file] does). *)
Theorem phones_valid_after_operations ops (files : filesystem) :
  files_valid loads files →
  phones_valid
    (AddressBook.data
       (fst (perform_all dumps loads today ops (AddressBook.__init__, files)))).
Proof.
  intros Hfs. apply perform_all_valid; [constructor | assumption].
Qed.

End Invariant.

(** *** The same through the command loop *)

Lemma print_valid loads st line :
  state_valid loads st → state_valid loads (print st line).
Proof. now intros [H1 H2]. Qed.

Lemma prompt_valid loads st text :
  state_valid loads st → state_valid loads (prompt st text).
Proof. now intros [H1 H2]. Qed.

Lemma with_ab_valid loads st ab' :
  state_valid loads st → phones_valid (AddressBook.data ab') →
  state_valid loads (with_ab st ab').
Proof. now intros [H1 H2] H. Qed.

Lemma command_add_valid loads today st line :
  state_valid loads st →
  state_valid loads (step_state (command_add today st line)).
Proof.
  intros H. unfold command_add.
  destruct (add_from_line today (ab st) line) as [ab'|e] eqn:E.
  - simpl. apply print_valid, with_ab_valid; [assumption|].
    apply (add_from_line_valid today (ab st) line); [apply H | assumption].
  - destruct e; simpl; assumption.
Qed.

Lemma change_phone_valid ab name phone ab' msg :
  phones_valid (AddressBook.data ab) →
  change_phone ab name phone = Ok (ab', msg) →
  phones_valid (AddressBook.data ab').
Proof.
  intros H. unfold change_phone, input_error.
  destruct (AddressBook.edit_contact ab name phone) as [ab1|e] eqn:E; simpl.
  - intros [= <- _]. now apply (edit_contact_valid ab name phone).
  - destruct e; simpl; intros [= <- _] || discriminate; assumption.
Qed.

Lemma command_change_valid loads st line :
  state_valid loads st →
  state_valid loads (step_state (command_change st line)).
Proof.
  intros H. unfold command_change.
  set (body := match split line with
               | [name; phone] => change_phone (ab st) name (Some phone)
               | _ => Raise (ValueError "not enough or too many values to unpack")
               end).
  destruct body as [[ab' msg]|e] eqn:E.
  - simpl. apply print_valid, with_ab_valid; [assumption|].
    subst body. destruct (split line) as [|name [|phone [|x l]]];
      try discriminate.
    apply (change_phone_valid (ab st) name (Some phone) ab' msg);
      [apply H | assumption].
  - destruct e; simpl; assumption.
Qed.

Lemma command_phone_valid loads st command :
  state_valid loads st →
  state_valid loads (step_state (command_phone st command)).
Proof.
  intros H. unfold command_phone.
  destruct (match split command !! 1%nat with
            | Some name => show_phone (ab st) name
            | None => Raise (IndexError "list index out of range")
            end) as [msg|e].
  - now apply print_valid.
  - destruct e; simpl; assumption.
Qed.

Lemma print_records_valid loads today results : ∀ st,
  state_valid loads st →
  match print_records today st results with
  | inl st' => state_valid loads st'
  | inr (st', _) => state_valid loads st'
  end.
Proof.
  induction results as [|r results IH]; intros st H; simpl; [assumption|].
  destruct (Record.__str__ today r) as [line|e]; [|assumption].
  apply IH. now apply print_valid.
Qed.

Lemma command_search_valid loads today st command :
  state_valid loads st →
  state_valid loads (step_state (command_search today st command)).
Proof.
  intros H. unfold command_search.
  destruct (split_maxsplit_1 command !! 1%nat) as [query|];
    [|now apply print_valid].
  destruct (AddressBook.search (ab st) query) as [results|e].
  - pose proof (print_records_valid loads today results
                  (print st "Search results:")
                  (print_valid _ _ _ H)) as Hp.
    destruct (print_records today (print st "Search results:") results)
      as [st'|[st' e]].
    + destruct results; simpl; [now apply print_valid | assumption].
    + destruct e; simpl; assumption.
  - destruct e; simpl; assumption.
Qed.

Lemma command_show_all_valid loads today st :
  state_valid loads st →
  state_valid loads (step_state (command_show_all today st)).
Proof.
  intros H. unfold command_show_all.
  destruct (AddressBook.show_all today (ab st)); simpl;
    [now apply print_valid | assumption].
Qed.

Lemma command_delete_valid loads st name :
  state_valid loads st →
  state_valid loads (step_state (command_delete st name)).
Proof.
  intros H. unfold command_delete, delete_contact, input_error.
  unfold AddressBook.delete_contact.
  destruct (dict_del (AddressBook.data (ab st)) name) as [d|] eqn:E; simpl.
  - apply print_valid, with_ab_valid; [assumption|]. simpl.
    exact (Forall_dict_del _ _ _ _ (proj1 H) E).
  - apply print_valid, with_ab_valid; [assumption | apply H].
Qed.

Section MainInvariant.

Variable dumps : dict Record.t → bytes.
Variable loads : bytes → result (dict Record.t).
Variable today : date.

Hypothesis loads_dumps : ∀ d, loads (dumps d) = Ok d.

Lemma save_valid st : state_valid loads st → state_valid loads (save dumps st).
Proof.
  intros [H1 H2]. split; [assumption|]. simpl.
  now apply save_to_file_valid.
Qed.

Lemma command_load_valid st :
  state_valid loads st →
  state_valid loads (step_state (command_load loads st)).
Proof.
  intros H. unfold command_load.
  destruct (AddressBook.load_from_file loads (ab st) file_name (fs st))
    as [ab'|e] eqn:E; simpl; [|assumption].
  apply print_valid, with_ab_valid; [assumption|].
  destruct H as [H1 H2].
  exact (load_from_file_valid loads _ _ _ _ H1 H2 E).
Qed.

Lemma loop_valid n : ∀ stdin st,
  (length stdin <= n)%nat → state_valid loads st →
  state_valid loads (final (loop dumps loads today stdin st)).
Proof.
  induction n as [|n IH]; intros stdin st Hn H.
  - destruct stdin; [assumption | simpl in Hn; lia].
  - destruct stdin as [|line stdin]; [assumption|].
    simpl in Hn.
    assert (Hnext : ∀ stdin' s,
              (length stdin' <= n)%nat → state_valid loads (step_state s) →
              state_valid loads
                (final match s with
                       | Continue st' => loop dumps loads today stdin' st'
                       | Break st' => mkrun st' Returned
                       | Crash st' e => mkrun st' (Uncaught e)
                       end)).
    { intros stdin' [st'|st'|st' e] Hl Hs; simpl; auto. }
    cbn [loop].
    repeat match goal with
           | |- context [if ?c then _ else _] => destruct c
           end;
      try (destruct stdin as [|line2 stdin];
           [now apply prompt_valid | simpl in Hn]);
      try (apply IH; [lia | now apply print_valid]);
      apply Hnext; try lia.
    + now apply command_add_valid, prompt_valid.
    + now apply command_change_valid, prompt_valid.
    + now apply command_phone_valid.
    + now apply command_search_valid.
    + now apply command_show_all_valid.
    + now apply command_delete_valid, prompt_valid.
    + now apply print_valid, save_valid.
    + now apply command_load_valid.
    + now apply print_valid, print_valid, save_valid.
Qed.

(** Whatever is typed, the phones of the book are valid when [main] ends,
    if the pickles on disk at its start hold valid phones. *)
Lemma main_phones_valid (files : filesystem) stdin :
  files_valid loads files →
  phones_valid
    (AddressBook.data (ab (final (main dumps loads today files stdin)))).
Proof.
  intros Hf. unfold main. simpl.
  destruct (AddressBook.load_from_file loads AddressBook.__init__ file_name
              files) as [ab'|e] eqn:E; simpl; [|constructor].
  apply (loop_valid (length stdin)); [lia|].
  apply print_valid. split; [|assumption]. simpl.
  refine (load_from_file_valid loads _ _ _ _ _ Hf E). constructor.
Qed.

End MainInvariant.

Lemma files_valid_empty loads : files_valid loads ∅.
Proof. intros path content d H. now rewrite lookup_empty in H. Qed.

Lemma phones_valid_after_operations_witness :
  phones_valid
    (AddressBook.data
       (fst (perform_all Codec.dumps Codec.loads a_tuesday
               [do_add "Alice +380501234567"; do_save file_name;
                do_add_phone "Alice" (Some "380671234567");
                do_load file_name; do_edit_contact "Alice" (Some "12345")]
               (AddressBook.__init__, ∅)))).
Proof.
  apply (phones_valid_after_operations Codec.dumps Codec.loads a_tuesday
           Codec_loads_dumps).
  apply files_valid_empty.
Defined.

(** C6, as the claim has it, fails: [load] takes the phones of the file as
    they are, and a file may hold one that no setter would accept. *)
Lemma loaded_phone_not_validated :
  Phone.accepts (Some "12345") = false
  ∧ fst (perform_all Codec.dumps Codec.loads a_tuesday [do_load file_name]
           (AddressBook.__init__, {[ file_name := Codec.dumps foreign_book ]}))
    = AddressBook.mk foreign_book
  ∧ ¬ phones_valid foreign_book
  ∧ ab (final (main_ref a_tuesday {[ file_name := Codec.dumps foreign_book ]}
                 ["hello"]))
    = AddressBook.mk foreign_book.
Proof.
  split; [reflexivity|]. split; [vm_compute; reflexivity|].
  split; [|vm_compute; reflexivity].
  intros H. inversion H as [|e d He Hd]; subst.
  inversion He as [|p ps Hp Hps]; subst. discriminate Hp.
Qed.

(** ** Editing a phone touches nothing else *)

Lemma py_index_first {A} (l : list A) : l ≠ [] → py_index l 0 = Some O.
Proof.
  destruct l as [|x l]; [congruence|]. intros _. unfold py_index.
  assert (H : (0 <=? 0) && (0 <? Z.of_nat (length (x :: l))) = true).
  { apply andb_true_iff. split; [reflexivity|]. apply Z.ltb_lt.
    simpl length. lia. }
  now rewrite H.
Qed.

Lemma set_list_same h l v : Heap.set_list h l v l = v.
Proof. unfold Heap.set_list. now rewrite Nat.eqb_refl. Qed.

Lemma set_list_other h l v l' : l' ≠ l → Heap.set_list h l v l' = h l'.
Proof.
  intros H. unfold Heap.set_list.
  destruct (Nat.eqb l' l) eqn:E; [|reflexivity].
  apply Nat.eqb_eq in E. contradiction.
Qed.

(** What [edit_phone] does to the heap, for an index in range. *)
Lemma Heap_edit_phone_ok r index phone h i :
  py_index (h (Heap.Record.phones r)) index = Some i →
  Phone.accepts phone = true →
  Heap.Record.edit_phone r index phone h
  = Ok (Heap.set_list h (Heap.Record.phones r)
          (<[i := Phone.mk phone]> (h (Heap.Record.phones r)))).
Proof.
  intros Hi Hp. unfold Heap.Record.edit_phone.
  rewrite (Phone_init_accepted _ Hp). simpl. now rewrite Hi.
Qed.

Lemma dict_get_heap_book h ab key :
  dict_get (AddressBook.data (heap_book h ab)) key = heap_get h ab key.
Proof.
  unfold heap_book, heap_get. simpl.
  induction (Heap.AddressBook.data ab) as [|[k r] d IH]; simpl;
    [reflexivity|].
  destruct (String.eqb k key); [reflexivity | exact IH].
Qed.

(** Where the contact is kept under its own name and its list is that of
    no other contact, [edit_contact] on records that name their lists and
    [edit_contact] on records as values end alike, and a reader finds
    the same book after them. *)
Lemma Heap_edit_contact_as_values ab h name phone :
  (∀ r, dict_get (Heap.AddressBook.data ab) name = Some r →
        Name.value (Heap.Record.name r) = name
        ∧ ∀ other r2,
            other ≠ name →
            dict_get (Heap.AddressBook.data ab) other = Some r2 →
            Heap.Record.phones r2 ≠ Heap.Record.phones r) →
  match Heap.AddressBook.edit_contact ab name phone h with
  | Ok (ab', h') =>
      ∃ book,
        AddressBook.edit_contact (heap_book h ab) name phone = Ok book
        ∧ ∀ key, dict_get (AddressBook.data book) key = heap_get h' ab' key
  | Raise e => AddressBook.edit_contact (heap_book h ab) name phone = Raise e
  end.
Proof.
  intros Hok.
  unfold Heap.AddressBook.edit_contact, AddressBook.edit_contact.
  rewrite dict_get_heap_book. unfold heap_get.
  destruct (dict_get (Heap.AddressBook.data ab) name) as [r|] eqn:Hg;
    [|reflexivity].
  destruct (Hok r eq_refl) as [Hn Hsh].
  unfold Heap.Record.edit_phone, Record.edit_phone.
  destruct (Phone.__init__ phone) as [p|e]; [|reflexivity]. simpl.
  destruct (py_index (h (Heap.Record.phones r)) 0) as [i|]; [|reflexivity].
  simpl. eexists. split; [reflexivity|].
  intros key. unfold AddressBook.add_contact, Heap.AddressBook.add_contact.
  cbn [AddressBook.data Heap.AddressBook.data Record.name].
  rewrite Hn, dict_set_twice.
  destruct (decide (name = key)) as [<- | Hne].
  - rewrite !dict_get_set_same. unfold heap_read. now rewrite set_list_same.
  - rewrite !dict_get_set_other by exact Hne.
    change (dict_get (map _ (Heap.AddressBook.data ab)) key)
      with (dict_get (AddressBook.data (heap_book h ab)) key).
    rewrite dict_get_heap_book. unfold heap_get.
    destruct (dict_get (Heap.AddressBook.data ab) key) as [r2|] eqn:Eg;
      [|reflexivity].
    unfold heap_read. rewrite set_list_other; [reflexivity|].
    apply (Hsh key r2); [congruence | exact Eg].
Qed.

(** C10, as the claim has it, fails.  In a book that keeps a record of
    the name Alice under the key Al, [edit_contact] on Al stores the
    edited record under Alice as well, in place of the contact that was
    there; and in a book where the records of Alice and Bob name one list
    of phones, [edit_contact] on Alice changes the phone of Bob.  A
    pickle can hold either book, and the [change] command reaches the
    first. *)
Lemma edit_contact_changes_another_contact :
  heap_get two_lists misfiled "Alice"
  = Some (Record.mk (Name.mk "Alice") [Phone.mk (Some "+380931234567")] None)
  ∧ (∃ ab' h',
       Heap.AddressBook.edit_contact misfiled "Al" (Some "380671234567")
         two_lists
       = Ok (ab', h')
       ∧ heap_get h' ab' "Alice"
         = Some (Record.mk (Name.mk "Alice")
                   [Phone.mk (Some "380671234567")] None))
  ∧ heap_get two_lists sharing "Bob"
    = Some (Record.mk (Name.mk "Bob") [Phone.mk (Some "+380501234567")] None)
  ∧ (∃ ab' h',
       Heap.AddressBook.edit_contact sharing "Alice" (Some "380671234567")
         two_lists
       = Ok (ab', h')
       ∧ heap_get h' ab' "Bob"
         = Some (Record.mk (Name.mk "Bob")
                   [Phone.mk (Some "380671234567")] None))
  ∧ dict_get
      (AddressBook.data
         (ab (final (main_ref a_tuesday
                       {[ file_name := Codec.dumps misfiled_book ]}
                       ["change"; "Al 380671234567"]))))
      "Alice"
    = Some (Record.mk (Name.mk "Alice") [Phone.mk (Some "380671234567")] None).
Proof.
  split; [reflexivity|].
  split; [eexists; eexists; split; reflexivity|].
  split; [reflexivity|].
  split; [eexists; eexists; split; reflexivity|].
  vm_compute. reflexivity.
Qed.

(** C10, amended.  For an index in range and a phone the setter accepts,
    [edit_phone] changes the phone at that index of the record's list
    and nothing else: the record reads as before but for that phone, and
    so does every record that names another list.  In a book that keeps
    the contact under its own name, its list being that of no other
    contact, [edit_contact], which edits index 0, changes that phone of
    the contact and nothing else: the keys and their order are kept, and
    every other contact reads as before. *)
Theorem edit_phone_changes_one_phone :
  (∀ r index phone h i,
     py_index (h (Heap.Record.phones r)) index = Some i →
     Phone.accepts phone = true →
     ∃ h',
       Heap.Record.edit_phone r index phone h = Ok h'
       ∧ (i < length (h (Heap.Record.phones r)))%nat
       ∧ heap_read h' r
         = Record.mk (Heap.Record.name r)
             (<[i := Phone.mk phone]> (h (Heap.Record.phones r)))
             (Heap.Record.birthday r)
       ∧ ∀ r2, Heap.Record.phones r2 ≠ Heap.Record.phones r →
               heap_read h' r2 = heap_read h r2)
  ∧ (∀ ab h name r phone,
       dict_get (Heap.AddressBook.data ab) name = Some r →
       Name.value (Heap.Record.name r) = name →
       (∀ other r2,
          other ≠ name → dict_get (Heap.AddressBook.data ab) other = Some r2 →
          Heap.Record.phones r2 ≠ Heap.Record.phones r) →
       h (Heap.Record.phones r) ≠ [] →
       Phone.accepts phone = true →
       ∃ ab' h',
         Heap.AddressBook.edit_contact ab name phone h = Ok (ab', h')
         ∧ dict_keys (Heap.AddressBook.data ab')
           = dict_keys (Heap.AddressBook.data ab)
         ∧ heap_get h' ab' name
           = Some (Record.mk (Heap.Record.name r)
                     (<[0%nat := Phone.mk phone]> (h (Heap.Record.phones r)))
                     (Heap.Record.birthday r))
         ∧ ∀ other, other ≠ name → heap_get h' ab' other = heap_get h ab other).
Proof.
  split.
  - intros r index phone h i Hi Hp. eexists.
    split; [exact (Heap_edit_phone_ok _ _ _ _ _ Hi Hp)|].
    split; [exact (py_index_lt _ _ _ Hi)|].
    split.
    + unfold heap_read. now rewrite set_list_same.
    + intros r2 Hne. unfold heap_read. now rewrite set_list_other.
  - intros ab h name r phone Hg Hn Hsh Hne Hp.
    unfold Heap.AddressBook.edit_contact. rewrite Hg.
    rewrite (Heap_edit_phone_ok r 0 phone h O (py_index_first _ Hne) Hp).
    simpl. eexists. eexists. split; [reflexivity|].
    unfold Heap.AddressBook.add_contact. rewrite Hn.
    cbn [Heap.AddressBook.data].
    split; [exact (dict_keys_set_present _ _ _ _ Hg)|].
    split.
    + unfold heap_get. cbn [Heap.AddressBook.data].
      rewrite dict_get_set_same. unfold heap_read. now rewrite set_list_same.
    + intros other Hother. unfold heap_get. cbn [Heap.AddressBook.data].
      rewrite dict_get_set_other by congruence.
      destruct (dict_get (Heap.AddressBook.data ab) other) as [r2|] eqn:E;
        [|reflexivity].
      unfold heap_read. rewrite set_list_other; [reflexivity|].
      exact (Hsh other r2 Hother E).
Qed.

Lemma edit_phone_changes_one_phone_witness :
  ∃ ab' h',
    Heap.AddressBook.edit_contact alice_alone "Alice" (Some "380671234567")
      two_lists
    = Ok (ab', h')
    ∧ dict_keys (Heap.AddressBook.data ab')
      = dict_keys (Heap.AddressBook.data alice_alone)
    ∧ heap_get h' ab' "Alice"
      = Some (Record.mk (Name.mk "Alice")
                (<[0%nat := Phone.mk (Some "380671234567")]>
                   (two_lists 0%nat))
                None)
    ∧ ∀ other, other ≠ "Alice" →
               heap_get h' ab' other = heap_get two_lists alice_alone other.
Proof.
  apply (proj2 edit_phone_changes_one_phone alice_alone two_lists "Alice"
           (Heap.Record.mk (Name.mk "Alice") 0%nat None));
    try reflexivity.
  - intros other r2 Hne. cbn [alice_alone Heap.AddressBook.data dict_get].
    destruct (String.eqb "Alice" other) eqn:E.
    + apply String.eqb_eq in E. congruence.
    + intros H. discriminate H.
  - discriminate.
Defined.

(** * Further properties of the code *)

(** ** [Phone]: the end of the pattern *)

Lemma rmatch_380_before_eol pos ds rest :
  nine_digits ds = true → at_eol rest = true →
  rmatch (Cat (Lit "3") (Cat (Lit "8") (Cat (Lit "0") (Cat (Rep 9 Digit) Eol))))
    pos ("380" +:+ ds +:+ rest) (fun _ _ => true) = true.
Proof.
  unfold nine_digits. intros H Hr. apply andb_true_iff in H as [Hlen Hds].
  apply Nat.eqb_eq in Hlen.
  change ("380" +:+ ds +:+ rest)
    with (String "3" (String "8" (String "0" (ds +:+ rest)))).
  rewrite rmatch_Cat, rmatch_Lit_cons, Ascii.eqb_refl.
  rewrite rmatch_Cat, rmatch_Lit_cons, Ascii.eqb_refl.
  rewrite rmatch_Cat, rmatch_Lit_cons, Ascii.eqb_refl.
  rewrite rmatch_Cat, (rmatch_digits 9) by auto.
  rewrite rmatch_Eol. now rewrite Hr.
Qed.

(** X1: [$] also matches before a line feed that ends the string, so a
    phone number followed by one line feed passes the setter, with or
    without the plus sign, and is stored with its line feed. *)
Theorem phone_with_line_feed_accepted ds :
  nine_digits ds = true →
  Phone.__init__ (Some ("+380" +:+ ds +:+ LF))
  = Ok (Phone.mk (Some ("+380" +:+ ds +:+ LF)))
  ∧ Phone.__init__ (Some ("380" +:+ ds +:+ LF))
    = Ok (Phone.mk (Some ("380" +:+ ds +:+ LF))).
Proof.
  intros H. split; apply Phone_init_accepted;
    unfold Phone.accepts, re_match, Phone.pattern;
    rewrite rmatch_Cat, rmatch_Bol_0, rmatch_Cat, rmatch_Opt;
    apply orb_true_iff.
  - left. change ("+380" +:+ ds +:+ LF) with (String "+" ("380" +:+ ds +:+ LF)).
    rewrite rmatch_Lit_cons, Ascii.eqb_refl.
    now apply rmatch_380_before_eol.
  - right. now apply rmatch_380_before_eol.
Qed.

Lemma phone_with_line_feed_accepted_witness :
  Phone.__init__ (Some ("+380" +:+ "501234567" +:+ LF))
  = Ok (Phone.mk (Some ("+380" +:+ "501234567" +:+ LF)))
  ∧ Phone.__init__ (Some ("380" +:+ "501234567" +:+ LF))
    = Ok (Phone.mk (Some ("380" +:+ "501234567" +:+ LF))).
Proof. apply (phone_with_line_feed_accepted "501234567"). reflexivity. Defined.

(** ** [Birthday]: what the setter stores and what it refuses *)

Lemma strptime_dmY_Ok s d : strptime_dmY s = Ok d → valid_date d = true.
Proof.
  unfold strptime_dmY.
  destruct (strptime_match s) as [[[[dd mm] yy] [|c rest]]|]; try discriminate.
  intros H. apply date_new_inv in H as [-> H]. exact H.
Qed.

Lemma date_new_Raise y m d e :
  date_new y m d = Raise e → ∃ msg, e = ValueError msg.
Proof.
  unfold date_new.
  repeat match goal with
         | |- (if ?c then _ else _) = _ → _ => destruct c
         end; intros [= <-] || discriminate; eauto.
Qed.

Lemma strptime_dmY_Raise s e :
  strptime_dmY s = Raise e → ∃ msg, e = ValueError msg.
Proof.
  unfold strptime_dmY.
  destruct (strptime_match s) as [[[[dd mm] yy] [|c rest]]|].
  - apply date_new_Raise.
  - intros [= <-]. eauto.
  - intros [= <-]. eauto.
Qed.

Lemma date_lt_next_year today m d :
  date_lt (mkdate (year today + 1) m d) today = false.
Proof.
  unfold date_lt. cbn [year month day].
  assert (H1 : (year today + 1 <? year today) = false) by (apply Z.ltb_ge; lia).
  assert (H2 : (year today + 1 =? year today) = false) by (apply Z.eqb_neq; lia).
  now rewrite H1, H2.
Qed.

(** What [Birthday(v)] gives, for a true [v] that [strptime] reads or
    does not read. *)
Lemma Birthday_init_cases today v :
  truthy v = true →
  Birthday.__init__ today v
  = match strptime_dmY (default "" v) with
    | Raise _ => Raise birthday_error
    | Ok parsed =>
        if date_lt parsed today
        then match date_new (year today + 1) (month parsed) (day parsed) with
             | Ok bumped => Ok (Birthday.mk (Some bumped))
             | Raise _ => Raise birthday_error
             end
        else Ok (Birthday.mk (Some parsed))
    end.
Proof.
  intros Ht. unfold Birthday.__init__, Birthday.set_value. rewrite Ht.
  destruct (strptime_dmY (default "" v)) as [parsed|e] eqn:E; simpl.
  - destruct (date_lt parsed today); [|reflexivity].
    unfold date_replace_year.
    destruct (date_new (year today + 1) (month parsed) (day parsed))
      as [bumped|e] eqn:E'; [reflexivity|].
    apply date_new_Raise in E' as [msg ->]. reflexivity.
  - apply strptime_dmY_Raise in E as [msg ->]. reflexivity.
Qed.

(** X2: [Birthday(v)] leaves the object without a value, and raises
    nothing, exactly for [None] and for the empty string; a value it
    stores is a date of the calendar that is not before today; and when
    it fails, it fails with its own [ValueError] and no other
    exception. *)
Theorem Birthday_init_outcome today v :
  match Birthday.__init__ today v with
  | Ok b =>
      match Birthday._value b with
      | Some d =>
          truthy v = true ∧ valid_date d = true ∧ date_lt d today = false
      | None => truthy v = false
      end
  | Raise e => truthy v = true ∧ e = birthday_error
  end.
Proof.
  destruct (truthy v) eqn:Ht.
  - rewrite (Birthday_init_cases _ _ Ht).
    destruct (strptime_dmY (default "" v)) as [parsed|e] eqn:E; [|auto].
    apply strptime_dmY_Ok in E.
    destruct (date_lt parsed today) eqn:Elt; [|simpl; auto].
    destruct (date_new (year today + 1) (month parsed) (day parsed))
      as [bumped|e] eqn:E'; [|auto].
    apply date_new_inv in E' as [-> E']. simpl.
    repeat split; [exact E' | apply date_lt_next_year].
  - unfold Birthday.__init__, Birthday.set_value. rewrite Ht. reflexivity.
Qed.

(** The same for a date written as [DDMMYYYY]. *)
Lemma Birthday_init_DDMMYYYY today x :
  Birthday.__init__ today (Some (DDMMYYYY x))
  = match strptime_dmY (DDMMYYYY x) with
    | Raise _ => Raise birthday_error
    | Ok parsed =>
        if date_lt parsed today
        then match date_new (year today + 1) (month parsed) (day parsed) with
             | Ok bumped => Ok (Birthday.mk (Some bumped))
             | Raise _ => Raise birthday_error
             end
        else Ok (Birthday.mk (Some parsed))
    end.
Proof. now apply (Birthday_init_cases today (Some (DDMMYYYY x))). Qed.

(** X3: a date of the calendar that is not before today, written as
    [DDMMYYYY], is stored as it is, with the year that was typed. *)
Theorem Birthday_init_coming_date today x :
  valid_date x = true → date_lt x today = false →
  Birthday.__init__ today (Some (DDMMYYYY x)) = Ok (Birthday.mk (Some x)).
Proof.
  destruct x as [y m d]. unfold valid_date. cbn [year month day].
  intros Hx Hlt. destruct (valid_ymd_bounds _ _ _ Hx) as (By & Bm & Bd).
  rewrite Birthday_init_DDMMYYYY.
  rewrite strptime_DDMMYYYY by lia. rewrite (date_new_ok _ _ _ Hx).
  now rewrite Hlt.
Qed.

Lemma Birthday_init_coming_date_witness :
  Birthday.__init__ a_tuesday (Some (DDMMYYYY (mkdate 2026 12 15)))
  = Ok (Birthday.mk (Some (mkdate 2026 12 15))).
Proof. apply Birthday_init_coming_date; reflexivity. Defined.

(** X4: a date of the calendar before today, be it of an earlier year or
    of earlier this year, is stored with next year's number, where that
    day exists next year. *)
Theorem Birthday_init_earlier_date today x :
  valid_date x = true → date_lt x today = true →
  valid_ymd (year today + 1) (month x) (day x) = true →
  Birthday.__init__ today (Some (DDMMYYYY x))
  = Ok (Birthday.mk (Some (mkdate (year today + 1) (month x) (day x)))).
Proof.
  destruct x as [y m d]. unfold valid_date. cbn [year month day].
  intros Hx Hlt Hnext. destruct (valid_ymd_bounds _ _ _ Hx) as (By & Bm & Bd).
  rewrite Birthday_init_DDMMYYYY.
  rewrite strptime_DDMMYYYY by lia. rewrite (date_new_ok _ _ _ Hx).
  rewrite Hlt. cbn [year month day]. now rewrite (date_new_ok _ _ _ Hnext).
Qed.

Lemma Birthday_init_earlier_date_witness :
  Birthday.__init__ a_tuesday (Some (DDMMYYYY (mkdate 2026 3 1)))
  = Ok (Birthday.mk (Some (mkdate 2027 3 1))).
Proof.
  apply (Birthday_init_earlier_date a_tuesday (mkdate 2026 3 1)); reflexivity.
Defined.

(** X5: a 29 February before today is refused as a badly formatted date
    whenever next year is not a leap year, although it is a date of the
    calendar written as [DDMMYYYY]. *)
Theorem Birthday_init_leap_day_refused today x :
  valid_date x = true → month x = 2 → day x = 29 →
  date_lt x today = true → _is_leap (year today + 1) = false →
  Birthday.__init__ today (Some (DDMMYYYY x)) = Raise birthday_error.
Proof.
  destruct x as [y m d]. unfold valid_date. cbn [year month day].
  intros Hx -> -> Hlt Hleap.
  destruct (valid_ymd_bounds _ _ _ Hx) as (By & Bm & Bd).
  rewrite Birthday_init_DDMMYYYY.
  rewrite strptime_DDMMYYYY by lia. rewrite (date_new_ok _ _ _ Hx).
  rewrite Hlt. cbn [year month day].
  destruct (date_new (year today + 1) 2 29) as [b|e] eqn:E; [|reflexivity].
  apply date_new_inv in E as [_ E]. unfold valid_ymd, _days_in_month in E.
  rewrite Hleap in E. simpl in E. bool_to_Prop. lia.
Qed.

Lemma Birthday_init_leap_day_refused_witness :
  Birthday.__init__ a_tuesday (Some (DDMMYYYY (mkdate 2024 2 29)))
  = Raise birthday_error.
Proof.
  apply (Birthday_init_leap_day_refused a_tuesday (mkdate 2024 2 29));
    reflexivity.
Defined.

(** X6: eight digits that name no day of the calendar (a day past the end
    of its month, or the year 0000) are refused. *)
Theorem Birthday_init_no_such_day today y m d :
  1 <= d <= 31 → 1 <= m <= 12 → 0 <= y <= 9999 →
  valid_ymd y m d = false →
  Birthday.__init__ today (Some (DDMMYYYY (mkdate y m d)))
  = Raise birthday_error.
Proof.
  intros Hd Hm Hy Hv.
  rewrite Birthday_init_DDMMYYYY.
  rewrite strptime_DDMMYYYY by lia.
  destruct (date_new y m d) as [x|e] eqn:E; [|reflexivity].
  apply date_new_inv in E as [_ E]. congruence.
Qed.

Lemma Birthday_init_no_such_day_witness :
  Birthday.__init__ a_tuesday (Some (DDMMYYYY (mkdate 2021 4 31)))
  = Raise birthday_error.
Proof.
  apply (Birthday_init_no_such_day a_tuesday 2021 4 31); (lia || reflexivity).
Defined.

(** ** [Record]: the list of phones *)

Lemma Record_eta (r : Record.t) :
  Record.mk (Record.name r) (Record.phones r) (Record.birthday r) = r.
Proof. now destruct r. Qed.

Lemma py_index_nonneg {A} (l : list A) i :
  0 <= i < Z.of_nat (length l) → py_index l i = Some (Z.to_nat i).
Proof.
  intros H. unfold py_index.
  assert (E : (0 <=? i) && (i <? Z.of_nat (length l)) = true).
  { apply andb_true_iff. split; [apply Z.leb_le | apply Z.ltb_lt]; lia. }
  now rewrite E.
Qed.

Lemma py_index_negative {A} (l : list A) i :
  0 <= i < Z.of_nat (length l) →
  py_index l (i - Z.of_nat (length l)) = Some (Z.to_nat i).
Proof.
  intros H. unfold py_index.
  assert (E1 : (0 <=? i - Z.of_nat (length l))
               && (i - Z.of_nat (length l) <? Z.of_nat (length l)) = false).
  { apply andb_false_iff. left. apply Z.leb_gt. lia. }
  assert (E2 : (- Z.of_nat (length l) <=? i - Z.of_nat (length l))
               && (i - Z.of_nat (length l) <? 0) = true).
  { apply andb_true_iff. split; [apply Z.leb_le | apply Z.ltb_lt]; lia. }
  rewrite E1, E2. f_equal. f_equal. lia.
Qed.



(** X7: deleting the phone at index -1 undoes [add_phone]: the record is
    again what it was before the phone was added. *)
Theorem delete_last_undoes_add_phone r phone r' :
  Record.add_phone r phone = Ok r' → Record.delete_phone r' (-1) = Ok r.
Proof.
  unfold Record.add_phone.
  destruct (Phone.__init__ phone) as [p|e]; simpl; [|discriminate].
  intros [= <-]. unfold Record.delete_phone. cbn [Record.phones].
  assert (Hlen : length (Record.phones r ++ [p])
                 = S (length (Record.phones r))).
  { rewrite length_app. simpl. lia. }
  replace (-1) with
    (Z.of_nat (length (Record.phones r))
     - Z.of_nat (length (Record.phones r ++ [p]))) by lia.
  rewrite py_index_negative by lia. rewrite Nat2Z.id.
  rewrite delete_middle, app_nil_r. cbn [Record.name Record.birthday].
  now rewrite Record_eta.
Qed.

Lemma delete_last_undoes_add_phone_witness :
  Record.delete_phone
    (Record.mk (Name.mk "Alice")
       [Phone.mk (Some "+380501234567"); Phone.mk (Some "380671234567")]
       (Some (Birthday.mk None)))
    (-1)
  = Ok alice.
Proof.
  apply (delete_last_undoes_add_phone alice (Some "380671234567")).
  reflexivity.
Defined.

(** X8: an index counted from the end reaches the same phone as the
    index counted from the front: for [0 <= i < len], [edit_phone] and
    [delete_phone] at [i - len] do what they do at [i]. *)
Theorem negative_index_same_phone r i phone :
  0 <= i < Z.of_nat (length (Record.phones r)) →
  Record.edit_phone r (i - Z.of_nat (length (Record.phones r))) phone
  = Record.edit_phone r i phone
  ∧ Record.delete_phone r (i - Z.of_nat (length (Record.phones r)))
    = Record.delete_phone r i.
Proof.
  intros H. unfold Record.edit_phone, Record.delete_phone.
  now rewrite py_index_negative, py_index_nonneg by assumption.
Qed.

Lemma negative_index_same_phone_witness :
  Record.edit_phone alice (0 - Z.of_nat (length (Record.phones alice)))
    (Some "380671234567")
  = Record.edit_phone alice 0 (Some "380671234567")
  ∧ Record.delete_phone alice (0 - Z.of_nat (length (Record.phones alice)))
    = Record.delete_phone alice 0.
Proof. apply (negative_index_same_phone alice 0). simpl. lia. Defined.



(** X10: of two edits of the same index, the last one wins: the record is
    what the second edit alone would have made it. *)
Theorem edit_phone_twice r index phone1 phone2 r1 :
  Record.edit_phone r index phone1 = Ok r1 →
  Record.edit_phone r1 index phone2 = Record.edit_phone r index phone2.
Proof.
  unfold Record.edit_phone.
  destruct (Phone.__init__ phone1) as [p1|e]; simpl; [|discriminate].
  destruct (py_index (Record.phones r) index) as [i|] eqn:Ei; [|discriminate].
  intros [= <-]. cbn [Record.phones Record.name Record.birthday].
  destruct (Phone.__init__ phone2) as [p2|e]; simpl; [|reflexivity].
  assert (Ei' : py_index (<[i:=p1]> (Record.phones r)) index = Some i).
  { unfold py_index in *. now rewrite length_insert. }
  rewrite Ei'. now rewrite list_insert_insert_eq.
Qed.

Lemma edit_phone_twice_witness :
  Record.edit_phone
    (Record.mk (Name.mk "Alice") [Phone.mk (Some "380671234567")]
       (Some (Birthday.mk None)))
    0 (Some "380931234567")
  = Record.edit_phone alice 0 (Some "380931234567").
Proof.
  apply (edit_phone_twice alice 0 (Some "380671234567")). reflexivity.
Defined.

(** X11: [delete_phone] at an index in range takes out that phone and no
    other: the list is one shorter, the phones before the index stay
    where they are, those after it move down by one, and the name and
    the birthday are kept. *)
Theorem delete_phone_removes_one r index i :
  py_index (Record.phones r) index = Some i →
  ∃ r', Record.delete_phone r index = Ok r'
        ∧ Record.name r' = Record.name r
        ∧ Record.birthday r' = Record.birthday r
        ∧ S (length (Record.phones r')) = length (Record.phones r)
        ∧ (∀ j, (j < i)%nat → Record.phones r' !! j = Record.phones r !! j)
        ∧ (∀ j, (i <= j)%nat →
                Record.phones r' !! j = Record.phones r !! S j).
Proof.
  intros Hi. unfold Record.delete_phone. rewrite Hi.
  eexists. split; [reflexivity|]. cbn [Record.phones Record.name Record.birthday].
  pose proof (py_index_lt _ _ _ Hi) as Hlt.
  repeat split.
  - rewrite length_delete by (apply lookup_lt_is_Some; assumption). lia.
  - intros j Hj. now apply list_lookup_delete_lt.
  - intros j Hj. now apply list_lookup_delete_ge.
Qed.

Lemma delete_phone_removes_one_witness :
  ∃ r', Record.delete_phone alice 0 = Ok r'
        ∧ Record.name r' = Record.name alice
        ∧ Record.birthday r' = Record.birthday alice
        ∧ S (length (Record.phones r')) = length (Record.phones alice)
        ∧ (∀ j, (j < 0)%nat → Record.phones r' !! j = Record.phones alice !! j)
        ∧ (∀ j, (0 <= j)%nat →
                Record.phones r' !! j = Record.phones alice !! S j).
Proof. apply (delete_phone_removes_one alice 0 O). reflexivity. Defined.

(** ** [days_to_birthday]: the count *)

(** The result of [days_to_birthday] is a function of the month and the
    day of the stored date: the year of that date is never read. *)
Lemma days_to_birthday_month_day today r b v r' b' v' :
  Record.birthday r = Some b → Birthday._value b = Some v →
  Record.birthday r' = Some b' → Birthday._value b' = Some v' →
  month v' = month v → day v' = day v →
  Record.days_to_birthday today r' = Record.days_to_birthday today r.
Proof.
  intros Hb Hbv Hb' Hbv' Hm Hd.
  unfold Record.days_to_birthday, Birthday.value.
  rewrite Hb, Hbv, Hb', Hbv'. simpl. now rewrite Hm, Hd.
Qed.

(** X12: for a stored birthday other than 29 February, on any day before
    the last year of the calendar, [days_to_birthday] returns a number
    from 0 to 365, and 0 exactly on the birthday itself; the year of the
    stored date plays no part: every record whose stored date has the
    same month and day, in whatever year, gets the same number. *)
Theorem days_to_birthday_count today r b v :
  valid_date today = true → valid_date v = true →
  Record.birthday r = Some b → Birthday._value b = Some v →
  ¬ (month v = 2 ∧ day v = 29) → year today < MAXYEAR →
  ∃ n, Record.days_to_birthday today r = Ok (Some n)
       ∧ 0 <= n <= 365
       ∧ (n = 0 ↔ month v = month today ∧ day v = day today)
       ∧ ∀ r' b' v',
           Record.birthday r' = Some b' → Birthday._value b' = Some v' →
           month v' = month v → day v' = day v →
           Record.days_to_birthday today r' = Ok (Some n).
Proof.
  intros Ht Hv Hb Hbv Hn Hy.
  cut (∃ n, Record.days_to_birthday today r = Ok (Some n)
            ∧ 0 <= n <= 365
            ∧ (n = 0 ↔ month v = month today ∧ day v = day today)).
  { intros (n & E & H1 & H2). exists n. repeat split; try tauto; try lia.
    intros r' b' v' Hb' Hbv' Hm Hd.
    now rewrite (days_to_birthday_month_day today r b v r' b' v'). }
  revert Ht Hv Hb Hbv Hn Hy.
  destruct today as [ty tm td], v as [vy vm vd].
  unfold valid_date. simpl. intros Ht Hv Hb Hbv Hn Hy.
  assert (Hty : MINYEAR <= ty <= MAXYEAR).
  { unfold valid_ymd in Ht. bool_to_Prop. lia. }
  assert (Hty' : MINYEAR <= ty + 1 <= MAXYEAR)
    by (unfold MINYEAR, MAXYEAR in *; lia).
  pose proof (valid_in_other_year _ _ _ _ Hv Hn Hty) as V0.
  pose proof (valid_in_other_year _ _ _ _ Hv Hn Hty') as V1.
  unfold Record.days_to_birthday, Birthday.value. rewrite Hb, Hbv. simpl.
  rewrite (date_new_ok _ _ _ V0). simpl.
  destruct (date_lt (mkdate ty vm vd) (mkdate ty tm td)) eqn:Elt.
  - rewrite (date_new_ok _ _ _ V1). simpl. eexists; split; [reflexivity|].
    apply date_lt_same_year in Elt.
    unfold date_sub_days, toordinal, _ymd2ord, _days_before_month. simpl.
    rewrite days_before_year_succ.
    unfold valid_ymd, _days_in_month, MINYEAR, MAXYEAR in *. bool_to_Prop.
    generalize dependent (_days_before_year ty). intros dby.
    each_month vm; each_month tm; simpl in *;
      destruct (_is_leap ty), (_is_leap (ty + 1)), (_is_leap vy);
      simpl in *; lia.
  - simpl. eexists; split; [reflexivity|].
    assert (Hge : ¬ (vm < tm ∨ (vm = tm ∧ vd < td))).
    { intros H. apply (proj2 (date_lt_same_year ty vm vd tm td)) in H.
      congruence. }
    unfold date_sub_days, toordinal, _ymd2ord, _days_before_month. simpl.
    unfold valid_ymd, _days_in_month, MINYEAR, MAXYEAR in *. bool_to_Prop.
    generalize dependent (_days_before_year ty). intros dby.
    each_month vm; each_month tm; simpl in *;
      destruct (_is_leap ty), (_is_leap vy); simpl in *; lia.
Qed.

Lemma days_to_birthday_count_witness :
  ∃ n, Record.days_to_birthday a_tuesday
         (Record.mk (Name.mk "Alice") []
            (Some (Birthday.mk (Some (mkdate 2027 6 15)))))
       = Ok (Some n)
       ∧ 0 <= n <= 365
       ∧ (n = 0 ↔ month (mkdate 2027 6 15) = month a_tuesday
                  ∧ day (mkdate 2027 6 15) = day a_tuesday)
       ∧ ∀ r' b' v',
           Record.birthday r' = Some b' → Birthday._value b' = Some v' →
           month v' = month (mkdate 2027 6 15) →
           day v' = day (mkdate 2027 6 15) →
           Record.days_to_birthday a_tuesday r' = Ok (Some n).
Proof.
  apply (days_to_birthday_count a_tuesday _
           (Birthday.mk (Some (mkdate 2027 6 15))));
    try reflexivity; unfold MAXYEAR; simpl; lia.
Defined.

Lemma leap_year_not_followed y : _is_leap y = true → _is_leap (y + 1) = false.
Proof.
  unfold _is_leap. intros H. apply andb_true_iff in H as [H _].
  apply Z.eqb_eq in H. apply andb_false_iff. left. apply Z.eqb_neq.
  Z.div_mod_to_equations. lia.
Qed.

(** X13: for a stored 29 February, [days_to_birthday] returns only in a
    leap year, up to its 29 February; on every other day it raises the
    [ValueError] of [date], as it builds a 29 February in a year that
    has none. *)
Theorem days_to_birthday_leap_day today r b v :
  valid_date today = true →
  Record.birthday r = Some b → Birthday._value b = Some v →
  month v = 2 → day v = 29 →
  Record.days_to_birthday today r
  = if _is_leap (year today)
       && negb (date_lt (mkdate (year today) 2 29) today)
    then Ok (Some (date_sub_days (mkdate (year today) 2 29) today))
    else Raise (ValueError "day is out of range for month").
Proof.
  destruct today as [ty tm td], v as [vy vm vd].
  unfold valid_date. cbn [year month day]. intros Ht Hb Hbv -> ->.
  destruct (valid_ymd_bounds _ _ _ Ht) as (By & _).
  unfold Record.days_to_birthday, Birthday.value. rewrite Hb, Hbv.
  cbn [mbind result_bind year month day].
  unfold date_new, _days_in_month, MINYEAR, MAXYEAR.
  assert (Ey : (1 <=? ty) && (ty <=? 9999) = true).
  { apply andb_true_iff. split; apply Z.leb_le; lia. }
  rewrite Ey. cbn [negb andb Z.leb Z.eqb Z.compare Pos.compare Pos.compare_cont].
  destruct (_is_leap ty) eqn:Eleap; simpl.
  - destruct (date_lt (mkdate ty 2 29) (mkdate ty tm td)) eqn:Elt; simpl;
      [|reflexivity].
    assert (Ey' : (1 <=? ty + 1) && (ty + 1 <=? 9999) = true).
    { apply andb_true_iff. split; apply Z.leb_le; [lia|].
      unfold _is_leap in Eleap. apply andb_true_iff in Eleap as [E4 _].
      apply Z.eqb_eq in E4. Z.div_mod_to_equations. lia. }
    rewrite Ey'. now rewrite (leap_year_not_followed _ Eleap).
  - reflexivity.
Qed.

Lemma days_to_birthday_leap_day_witness :
  Record.days_to_birthday (mkdate 2028 1 30) bob = Ok (Some 30)
  ∧ Record.days_to_birthday (mkdate 2028 3 1) bob
    = Raise (ValueError "day is out of range for month").
Proof.
  split.
  - apply (days_to_birthday_leap_day (mkdate 2028 1 30) bob
             (Birthday.mk (Some (mkdate 2028 2 29))) (mkdate 2028 2 29));
      reflexivity.
  - apply (days_to_birthday_leap_day (mkdate 2028 3 1) bob
             (Birthday.mk (Some (mkdate 2028 2 29))) (mkdate 2028 2 29));
      reflexivity.
Defined.

(** ** [AddressBook]: contacts by name *)

Lemma dict_keys_set_absent {V} (d : dict V) k v :
  dict_get d k = None → dict_keys (dict_set d k v) = dict_keys d ++ [k].
Proof.
  unfold dict_keys.
  induction d as [|[k' v'] d IH]; simpl; [reflexivity|].
  destruct (String.eqb k' k) eqn:E; simpl; [discriminate|].
  intros H. f_equal. now apply IH.
Qed.

Lemma dict_del_set_absent {V} (d : dict V) k v :
  dict_get d k = None → dict_del (dict_set d k v) k = Some d.
Proof.
  induction d as [|[k' v'] d IH]; simpl.
  - now rewrite String.eqb_refl.
  - destruct (String.eqb k' k) eqn:E; simpl; [discriminate|].
    intros H. rewrite E. now rewrite IH.
Qed.

Lemma dict_get_None_keys {V} (d : dict V) k :
  dict_get d k = None ↔ k ∉ dict_keys d.
Proof.
  unfold dict_keys. induction d as [|[k' v'] d IH]; simpl.
  - split; [intros _ H; inversion H | reflexivity].
  - rewrite not_elem_of_cons. destruct (String.eqb k' k) eqn:E.
    + apply String.eqb_eq in E. subst k'. split; [discriminate|].
      intros [H _]. contradiction.
    + apply String.eqb_neq in E. rewrite IH. split; [|tauto].
      intros H. split; [congruence | assumption].
Qed.

Lemma dict_del_None {V} (d : dict V) k :
  dict_get d k = None → dict_del d k = None.
Proof.
  induction d as [|[k' v'] d IH]; simpl; [reflexivity|].
  destruct (String.eqb k' k); [discriminate|].
  intros H. now rewrite IH.
Qed.

Lemma dict_del_Some {V} (d : dict V) k v :
  NoDup (dict_keys d) → dict_get d k = Some v →
  ∃ d', dict_del d k = Some d'
        ∧ dict_get d' k = None
        ∧ (∀ other, other ≠ k → dict_get d' other = dict_get d other)
        ∧ dict_keys d'
          = List.filter (fun k' => negb (String.eqb k' k)) (dict_keys d).
Proof.
  unfold dict_keys.
  induction d as [|[k' v'] d IH]; simpl; [discriminate|].
  intros Hnd Hg. apply NoDup_cons in Hnd as [Hk' Hnd].
  destruct (String.eqb k' k) eqn:E.
  - apply String.eqb_eq in E. subst k'. exists d. split; [reflexivity|].
    split; [now apply dict_get_None_keys|].
    split.
    + intros other Hne. simpl.
      destruct (String.eqb k other) eqn:E'; [|reflexivity].
      apply String.eqb_eq in E'. congruence.
    + simpl. symmetry. apply forallb_filter_id. apply forallb_forall.
      intros x Hx. apply negb_true_iff, String.eqb_neq.
      intros ->. apply Hk'. now apply list_elem_of_In.
  - destruct (IH Hnd Hg) as (d' & -> & Hnone & Hother & Hkeys).
    exists ((k', v') :: d'). split; [reflexivity|]. simpl. rewrite E.
    split; [assumption|]. split.
    + intros other Hne. destruct (String.eqb k' other); auto.
    + simpl. now rewrite Hkeys.
Qed.

(** X14: [add_contact] stores the record under its own name: looking the
    name up gives the record, every other name gives what it gave
    before, and the keys are those of before, in their order, with the
    name added at the end when it is new. *)
Theorem add_contact_upsert ab record :
  let name := Name.value (Record.name record) in
  let ab' := AddressBook.add_contact ab record in
  dict_get (AddressBook.data ab') name = Some record
  ∧ (∀ other, other ≠ name →
       dict_get (AddressBook.data ab') other
       = dict_get (AddressBook.data ab) other)
  ∧ dict_keys (AddressBook.data ab')
    = match dict_get (AddressBook.data ab) name with
      | Some _ => dict_keys (AddressBook.data ab)
      | None => dict_keys (AddressBook.data ab) ++ [name]
      end.
Proof.
  intros name ab'. subst ab'. unfold AddressBook.add_contact. simpl.
  fold name. split; [apply dict_get_set_same|]. split.
  - intros other Hne. apply dict_get_set_other. congruence.
  - destruct (dict_get (AddressBook.data ab) name) eqn:E.
    + now apply (dict_keys_set_present _ _ _ t).
    + now apply dict_keys_set_absent.
Qed.

(** X15: deleting a contact that was just added under a new name gives
    back the book as it was. *)
Theorem delete_undoes_add_contact ab record :
  dict_get (AddressBook.data ab) (Name.value (Record.name record)) = None →
  AddressBook.delete_contact (AddressBook.add_contact ab record)
    (Name.value (Record.name record))
  = Ok ab.
Proof.
  intros H. unfold AddressBook.delete_contact, AddressBook.add_contact.
  simpl. rewrite (dict_del_set_absent _ _ _ H). now rewrite AddressBook_eta.
Qed.

Lemma delete_undoes_add_contact_witness :
  AddressBook.delete_contact (AddressBook.add_contact alice_book bob) "Bob"
  = Ok alice_book.
Proof. apply (delete_undoes_add_contact alice_book bob). reflexivity. Defined.

(** X16: [delete_contact] raises [KeyError] for a name that is not in
    the book; for a name that is, it takes out that contact and no
    other: the name is gone, every other name gives what it gave before,
    and the other keys keep their order. *)
Theorem delete_contact_outcome ab name :
  NoDup (dict_keys (AddressBook.data ab)) →
  match dict_get (AddressBook.data ab) name with
  | None => AddressBook.delete_contact ab name = Raise (KeyError name)
  | Some _ =>
      ∃ ab', AddressBook.delete_contact ab name = Ok ab'
             ∧ dict_get (AddressBook.data ab') name = None
             ∧ (∀ other, other ≠ name →
                  dict_get (AddressBook.data ab') other
                  = dict_get (AddressBook.data ab) other)
             ∧ dict_keys (AddressBook.data ab')
               = List.filter (fun k => negb (String.eqb k name))
                   (dict_keys (AddressBook.data ab))
  end.
Proof.
  intros Hnd. unfold AddressBook.delete_contact.
  destruct (dict_get (AddressBook.data ab) name) as [r|] eqn:E.
  - destruct (dict_del_Some _ _ _ Hnd E) as (d' & -> & H1 & H2 & H3).
    exists (AddressBook.mk d'). auto.
  - now rewrite (dict_del_None _ _ E).
Qed.

Lemma delete_contact_outcome_witness :
  (∃ ab', AddressBook.delete_contact alice_book "Alice" = Ok ab'
          ∧ dict_get (AddressBook.data ab') "Alice" = None
          ∧ (∀ other, other ≠ "Alice" →
               dict_get (AddressBook.data ab') other
               = dict_get (AddressBook.data alice_book) other)
          ∧ dict_keys (AddressBook.data ab')
            = List.filter (fun k => negb (String.eqb k "Alice"))
                (dict_keys (AddressBook.data alice_book)))
  ∧ AddressBook.delete_contact alice_book "Bob" = Raise (KeyError "Bob").
Proof.
  assert (Hnd : NoDup (dict_keys (AddressBook.data alice_book))).
  { repeat constructor. intros H. inversion H. }
  split.
  - exact (delete_contact_outcome alice_book "Alice" Hnd).
  - exact (delete_contact_outcome alice_book "Bob" Hnd).
Defined.

(** X17: [edit_contact] fails in this order: [KeyError] for a name that
    is not in the book; then the phone's [ValueError] for a phone the
    setter refuses; then [IndexError] for a contact that has no phone to
    replace; and it succeeds in every other case. *)
Theorem edit_contact_outcome ab name phone :
  match dict_get (AddressBook.data ab) name with
  | None => AddressBook.edit_contact ab name phone = Raise (KeyError name)
  | Some record =>
      if negb (Phone.accepts phone)
      then AddressBook.edit_contact ab name phone = Raise phone_error
      else match Record.phones record with
           | [] =>
               AddressBook.edit_contact ab name phone
               = Raise (IndexError "list assignment index out of range")
           | _ :: _ => ∃ ab', AddressBook.edit_contact ab name phone = Ok ab'
           end
  end.
Proof.
  unfold AddressBook.edit_contact.
  destruct (dict_get (AddressBook.data ab) name) as [r|]; [|reflexivity].
  unfold Record.edit_phone.
  destruct (Phone.accepts phone) eqn:E; simpl.
  - rewrite (Phone_init_accepted _ E). simpl.
    destruct (Record.phones r) as [|p ps] eqn:Ep; [reflexivity|].
    rewrite py_index_first by discriminate. simpl. eauto.
  - now rewrite (Phone_init_refused _ E).
Qed.

(** ** [search] and [show_all] *)

(** X18: [search] is a search by name only: where every contact whose
    name does not contain the lowered query has no phone at all, it
    returns the contacts whose name contains it, in the order of the
    book; with any other contact in the book it raises the
    [AttributeError] of [phone.phone_number]. *)
Theorem search_outcome ab query :
  AddressBook.search ab query
  = if forallb (searchable (lower query)) (dict_values (AddressBook.data ab))
    then Ok (List.filter (name_matches (lower query))
               (dict_values (AddressBook.data ab)))
    else Raise (attribute_error "Phone" "phone_number").
Proof.
  unfold AddressBook.search.
  destruct (forallb (searchable (lower query))
              (dict_values (AddressBook.data ab))) eqn:E.
  - rewrite search_records_by_name; [reflexivity|].
    intros r Hr. apply list_elem_of_In in Hr.
    rewrite forallb_forall in E. specialize (E r Hr).
    unfold searchable in E. apply orb_true_iff in E as [E | E]; [now left|].
    right. now destruct (Record.phones r).
  - assert (Hex : ∃ r, r ∈ dict_values (AddressBook.data ab)
                       ∧ searchable (lower query) r = false).
    { clear -E. induction (dict_values (AddressBook.data ab)) as [|r l IH];
        [discriminate|].
      simpl in E. apply andb_false_iff in E as [E | E].
      - exists r. split; [apply list_elem_of_here | assumption].
      - destruct (IH E) as (r' & Hin & Hr'). exists r'.
        split; [now apply list_elem_of_further | assumption]. }
    destruct Hex as (r & Hin & Hr). unfold searchable in Hr.
    apply orb_false_iff in Hr as [Hn Hp].
    apply (search_records_raises _ _ _ r); auto.
    intros Hnil. now rewrite Hnil in Hp.
Qed.

Lemma str_in_empty s : str_in "" s = true.
Proof. now destruct s. Qed.

(** X19: the empty query matches every name: [search("")] returns all
    the contacts of the book, in its order, and reads no phone. *)
Theorem search_empty_query ab :
  AddressBook.search ab "" = Ok (dict_values (AddressBook.data ab)).
Proof.
  unfold AddressBook.search. cbn [lower].
  rewrite search_records_by_name.
  - simpl. f_equal. apply forallb_filter_id. apply forallb_forall.
    intros r _. apply str_in_empty.
  - intros r _. left. apply str_in_empty.
Qed.

Lemma mapM_raises {A B} (f : A → result B) l x e :
  x ∈ l → f x = Raise e → ∃ e', mapM f l = Raise e'.
Proof.
  intros Hin Hx. induction l as [|y l IH]; [inversion Hin|].
  cbn [mapM foldr]. fold (mapM f l).
  destruct (f y) as [b|e0] eqn:Ey; [|simpl; eauto].
  simpl. apply elem_of_cons in Hin as [-> | Hin]; [congruence|].
  destruct (IH Hin) as (e' & ->). simpl. eauto.
Qed.

(** X20: [show_all] prints the whole book or nothing: one contact whose
    line cannot be made, such as one that holds [Birthday(None)] or a
    29 February in a year without it, makes [show_all] raise, whatever
    the other contacts are. *)
Theorem show_all_raises_with_one today ab record e :
  record ∈ dict_values (AddressBook.data ab) →
  Record.__str__ today record = Raise e →
  ∃ e', AddressBook.show_all today ab = Raise e'.
Proof.
  intros Hin Hr. unfold AddressBook.show_all.
  destruct (AddressBook.data ab) as [|entry d] eqn:Ed; [inversion Hin|].
  destruct (mapM_raises _ _ _ _ Hin Hr) as (e' & ->). simpl. eauto.
Qed.

Lemma show_all_raises_with_one_witness :
  ∃ e', AddressBook.show_all a_tuesday
          (AddressBook.add_contact
             (AddressBook.mk
                [("Carol", Record.mk (Name.mk "Carol") [] None)])
             alice)
        = Raise e'.
Proof.
  apply (show_all_raises_with_one a_tuesday _ alice
           (attribute_error "Birthday" "_value")).
  - apply list_elem_of_further, list_elem_of_here.
  - reflexivity.
Defined.

(** ** Files *)

(** X21: what [load_from_file] does with a file that exists.  The
    mapping that [pickle.load] returns takes the place of the whole book,
    whatever the book held.  The [try] encloses [pickle.load] as well as
    [open], so a [FileNotFoundError] raised while unpickling is swallowed
    like that of a missing file, and the book is kept. *)
Theorem load_from_file_existing loads self filename (fs : filesystem) content :
  fs !! filename = Some content →
  (∀ d, loads content = Ok d →
        AddressBook.load_from_file loads self filename fs
        = Ok (AddressBook.mk d))
  ∧ (∀ path, loads content = Raise (FileNotFoundError path) →
             AddressBook.load_from_file loads self filename fs = Ok self).
Proof.
  intros Hf. rewrite (load_from_file_found _ _ _ _ _ Hf).
  split; intros x Hl; now rewrite Hl.
Qed.

Lemma load_from_file_existing_witness :
  AddressBook.load_from_file Codec.loads alice_book file_name
    {[ file_name := Codec.dumps [] ]}
  = Ok (AddressBook.mk [])
  ∧ AddressBook.load_from_file (loads_calling_open "notes.txt") alice_book
      file_name {[ file_name := [] ]}
    = Ok alice_book.
Proof.
  split.
  - apply (load_from_file_existing Codec.loads alice_book file_name
             {[ file_name := Codec.dumps [] ]} (Codec.dumps []));
      reflexivity.
  - assert (Hf : ({[ file_name := [] ]} : filesystem) !! file_name = Some [])
      by reflexivity.
    apply (proj2 (load_from_file_existing (loads_calling_open "notes.txt")
                    alice_book file_name {[ file_name := [] ]} [] Hf)
             "notes.txt").
    reflexivity.
Defined.

(** ** The command functions under [input_error] *)

Lemma dict_del_present {V} (d : dict V) k v :
  dict_get d k = Some v → ∃ d', dict_del d k = Some d'.
Proof.
  induction d as [|[k' v'] d IH]; simpl; [discriminate|].
  destruct (String.eqb k' k); [eauto|].
  intros H. destruct (IH H) as (d' & ->). eauto.
Qed.


(** X23: the function [delete_contact] never raises: it answers
    "Contact not found", with the book as it was, for a name that is not
    in the book, and "Contact deleted", with the book of the method
    [delete_contact], for a name that is. *)
Theorem delete_contact_function_outcome ab name :
  match dict_get (AddressBook.data ab) name with
  | None => delete_contact ab name = Ok (ab, "Contact not found")
  | Some _ =>
      ∃ ab', AddressBook.delete_contact ab name = Ok ab'
             ∧ delete_contact ab name = Ok (ab', "Contact deleted")
  end.
Proof.
  unfold delete_contact, input_error, AddressBook.delete_contact.
  destruct (dict_get (AddressBook.data ab) name) as [r|] eqn:E.
  - destruct (dict_del_present _ _ _ E) as (d' & ->). simpl. eauto.
  - now rewrite (dict_del_None _ _ E).
Qed.

(** X24: [show_phone] never returns a phone number: it answers
    "Contact not found" for a name that is not in the book and
    "No phone number" for a contact without phones, and for a contact
    with a phone it raises the [AttributeError] of [phone_number],
    which [input_error] does not catch. *)
Theorem show_phone_outcome ab name :
  show_phone ab name
  = match dict_get (AddressBook.data ab) name with
    | None => Ok "Contact not found"
    | Some record =>
        match Record.phones record with
        | [] => Ok "No phone number"
        | _ :: _ => Raise (attribute_error "Phone" "phone_number")
        end
    end.
Proof.
  unfold show_phone, input_error.
  destruct (dict_get (AddressBook.data ab) name) as [r|]; [|reflexivity].
  now destruct (Record.phones r).
Qed.

(** X25: the [add] command needs two words and asks for more below that,
    before it looks at any of them; with a name, a phone the setter
    accepts and a birthday it accepts, the book holds under that name a
    fresh record with that one phone, whatever was stored under the name
    before, and every other contact is as it was. *)
Theorem add_from_line_outcome today ab line :
  ((length (split line) < 2)%nat →
   add_from_line today ab line
   = Raise (ValueError "Please add other information"))
  ∧ (∀ name phone rest b,
       split line = name :: phone :: rest →
       Phone.accepts (Some phone) = true →
       Birthday.__init__ today (rest !! 0%nat) = Ok b →
       ∃ ab',
         add_from_line today ab line = Ok ab'
         ∧ dict_get (AddressBook.data ab') name
           = Some (Record.mk (Name.mk name) [Phone.mk (Some phone)] (Some b))
         ∧ ∀ other, other ≠ name →
             dict_get (AddressBook.data ab') other
             = dict_get (AddressBook.data ab) other).
Proof.
  unfold add_from_line. split.
  - intros H.
    assert (E : (Z.of_nat (length (split line)) <? 2) = true)
      by (apply Z.ltb_lt; lia).
    now rewrite E.
  - intros name phone rest b Hs Hp Hb. rewrite Hs. cbn [length nth].
    assert (E : (Z.of_nat (S (S (length rest))) <? 2) = false)
      by (apply Z.ltb_ge; lia).
    rewrite E. rewrite (Phone_init_accepted _ Hp).
    change ((name :: phone :: rest) !! 2%nat) with (rest !! 0%nat).
    simpl. rewrite Hb. simpl. eexists. split; [reflexivity|].
    unfold AddressBook.add_contact. simpl. split.
    + apply dict_get_set_same.
    + intros other Hne. apply dict_get_set_other. congruence.
Qed.

Lemma add_from_line_outcome_witness :
  add_from_line a_tuesday alice_book "Alice"
  = Raise (ValueError "Please add other information")
  ∧ ∃ ab',
      add_from_line a_tuesday alice_book "Alice 380671234567 15062027" = Ok ab'
      ∧ dict_get (AddressBook.data ab') "Alice"
        = Some (Record.mk (Name.mk "Alice") [Phone.mk (Some "380671234567")]
                  (Some (Birthday.mk (Some (mkdate 2027 6 15)))))
      ∧ ∀ other, other ≠ "Alice" →
          dict_get (AddressBook.data ab') other
          = dict_get (AddressBook.data alice_book) other.
Proof.
  split.
  - apply (proj1 (add_from_line_outcome a_tuesday alice_book "Alice")).
    simpl. lia.
  - apply (proj2 (add_from_line_outcome a_tuesday alice_book
                    "Alice 380671234567 15062027")
             "Alice" "380671234567" ["15062027"]); reflexivity.
Defined.

(** ** [main]: the commands *)

Lemma lower_char_twice c : lower_char (lower_char c) = lower_char c.
Proof. destruct c as [[] [] [] [] [] [] [] []]; reflexivity. Qed.

Lemma lower_twice s : lower (lower s) = lower s.
Proof.
  induction s as [|c s IH]; [reflexivity|].
  simpl. now rewrite lower_char_twice, IH.
Qed.

(** X26: a command line is read in lower case, the name given to [phone]
    and the query given to [search] included: the loop does with a line
    what it does with the same line in lower case. *)
Theorem loop_reads_lower_case dumps loads today line stdin st :
  loop dumps loads today (line :: stdin) st
  = loop dumps loads today (lower line :: stdin) st.
Proof. cbn [loop]. now rewrite lower_twice. Qed.

Lemma print_records_frame today results : ∀ st,
  match print_records today st results with
  | inl st' => ab st' = ab st ∧ fs st' = fs st
  | inr (st', _) => ab st' = ab st ∧ fs st' = fs st
  end.
Proof.
  induction results as [|r results IH]; intros st; simpl; [auto|].
  destruct (Record.__str__ today r) as [line|e]; [|auto].
  apply (IH (print st line)).
Qed.

Lemma command_phone_frame st command :
  ab (step_state (command_phone st command)) = ab st
  ∧ fs (step_state (command_phone st command)) = fs st.
Proof.
  unfold command_phone.
  destruct (match split command !! 1%nat with
            | Some name => show_phone (ab st) name
            | None => Raise (IndexError "list index out of range")
            end) as [msg|e]; [auto|].
  destruct e; auto.
Qed.

Lemma command_search_frame today st command :
  ab (step_state (command_search today st command)) = ab st
  ∧ fs (step_state (command_search today st command)) = fs st.
Proof.
  unfold command_search.
  destruct (split_maxsplit_1 command !! 1%nat) as [query|]; [|auto].
  destruct (AddressBook.search (ab st) query) as [results|e].
  - pose proof (print_records_frame today results
                  (print st "Search results:")) as Hp.
    destruct (print_records today (print st "Search results:") results)
      as [st'|[st' e]].
    + destruct results; simpl; auto.
    + destruct e; simpl; auto.
  - destruct e; auto.
Qed.

Lemma command_show_all_frame today st :
  ab (step_state (command_show_all today st)) = ab st
  ∧ fs (step_state (command_show_all today st)) = fs st.
Proof.
  unfold command_show_all.
  destruct (AddressBook.show_all today (ab st)); auto.
Qed.

(** X27: the commands [phone], [search] and [show all] only read: whether
    they print or end the process, the book and the files are after
    them what they were before. *)
Theorem reading_commands_change_nothing today st command :
  (ab (step_state (command_phone st command)) = ab st
   ∧ fs (step_state (command_phone st command)) = fs st)
  ∧ (ab (step_state (command_search today st command)) = ab st
     ∧ fs (step_state (command_search today st command)) = fs st)
  ∧ (ab (step_state (command_show_all today st)) = ab st
     ∧ fs (step_state (command_show_all today st)) = fs st).
Proof.
  split; [apply command_phone_frame|].
  split; [apply command_search_frame | apply command_show_all_frame].
Qed.

(** ** [main]: what every run keeps *)

Section LoopInvariant.

Variable dumps : dict Record.t → bytes.
Variable loads : bytes → result (dict Record.t).
Variable today : date.

(** A property of the book and the files that the five changing
    operations keep. *)
Variable inv : AddressBook.t → filesystem → Prop.

Hypothesis inv_add : ∀ ab (fs : filesystem) line ab',
  inv ab fs → add_from_line today ab line = Ok ab' → inv ab' fs.
Hypothesis inv_edit : ∀ ab (fs : filesystem) name phone ab',
  inv ab fs → AddressBook.edit_contact ab name phone = Ok ab' → inv ab' fs.
Hypothesis inv_delete : ∀ ab (fs : filesystem) name ab',
  inv ab fs → AddressBook.delete_contact ab name = Ok ab' → inv ab' fs.
Hypothesis inv_save : ∀ ab (fs : filesystem),
  inv ab fs → inv ab (AddressBook.save_to_file dumps ab file_name fs).
Hypothesis inv_load : ∀ ab (fs : filesystem) ab',
  inv ab fs → AddressBook.load_from_file loads ab file_name fs = Ok ab' →
  inv ab' fs.

Local Abbreviation holds st := (inv (ab st) (fs st)).

Lemma command_add_keeps st line :
  holds st → holds (step_state (command_add today st line)).
Proof.
  intros H. unfold command_add.
  destruct (add_from_line today (ab st) line) as [ab'|e] eqn:E.
  - exact (inv_add _ _ _ _ H E).
  - destruct e; exact H.
Qed.

Lemma command_change_keeps st line :
  holds st → holds (step_state (command_change st line)).
Proof.
  intros H. unfold command_change.
  set (body := match split line with
               | [name; phone] => change_phone (ab st) name (Some phone)
               | _ => Raise (ValueError "not enough or too many values to unpack")
               end).
  destruct body as [[ab' msg]|e] eqn:E.
  - subst body. destruct (split line) as [|name [|phone [|x l]]];
      try discriminate.
    unfold change_phone, input_error in E.
    destruct (AddressBook.edit_contact (ab st) name (Some phone))
      as [ab1|e] eqn:Ee; simpl in E.
    + injection E as <- _. exact (inv_edit _ _ _ _ _ H Ee).
    + destruct e; simpl in E; try discriminate; injection E as <- _;
        exact H.
  - destruct e; exact H.
Qed.

Lemma command_delete_keeps st name :
  holds st → holds (step_state (command_delete st name)).
Proof.
  intros H. unfold command_delete, delete_contact, input_error.
  destruct (AddressBook.delete_contact (ab st) name) as [ab1|e] eqn:Ee;
    simpl.
  - exact (inv_delete _ _ _ _ H Ee).
  - destruct e; exact H.
Qed.

Lemma command_load_keeps st :
  holds st → holds (step_state (command_load loads st)).
Proof.
  intros H. unfold command_load.
  destruct (AddressBook.load_from_file loads (ab st) file_name (fs st))
    as [ab'|e] eqn:E; simpl; [|exact H].
  exact (inv_load _ _ _ H E).
Qed.

Lemma reading_keeps st st' : ab st' = ab st ∧ fs st' = fs st →
  holds st → holds st'.
Proof. now intros [-> ->]. Qed.

Lemma loop_keeps n : ∀ stdin st,
  (length stdin <= n)%nat → holds st →
  holds (final (loop dumps loads today stdin st)).
Proof.
  induction n as [|n IH]; intros stdin st Hn H.
  - destruct stdin; [assumption | simpl in Hn; lia].
  - destruct stdin as [|line stdin]; [assumption|].
    simpl in Hn.
    assert (Hnext : ∀ stdin' s,
              (length stdin' <= n)%nat → holds (step_state s) →
              holds
                (final match s with
                       | Continue st' => loop dumps loads today stdin' st'
                       | Break st' => mkrun st' Returned
                       | Crash st' e => mkrun st' (Uncaught e)
                       end)).
    { intros stdin' [st'|st'|st' e] Hl Hs; simpl; auto. }
    cbn [loop].
    repeat match goal with
           | |- context [if ?c then _ else _] => destruct c
           end;
      try (destruct stdin as [|line2 stdin]; [exact H | simpl in Hn]);
      try (apply IH; [simpl; lia | exact H]);
      apply Hnext; try (simpl; lia).
    + now apply command_add_keeps.
    + now apply command_change_keeps.
    + exact (reading_keeps _ _ (command_phone_frame _ _) H).
    + exact (reading_keeps _ _ (command_search_frame _ _ _) H).
    + exact (reading_keeps _ _ (command_show_all_frame _ _) H).
    + now apply command_delete_keeps.
    + exact (inv_save _ _ H).
    + now apply command_load_keeps.
    + exact (inv_save _ _ H).
Qed.

Lemma main_keeps (files : filesystem) stdin :
  inv AddressBook.__init__ files →
  inv (ab (final (main dumps loads today files stdin)))
    (fs (final (main dumps loads today files stdin))).
Proof.
  intros H. unfold main. cbn [ab fs].
  destruct (AddressBook.load_from_file loads AddressBook.__init__ file_name
              files) as [ab'|e] eqn:E; [|exact H].
  apply (loop_keeps (length stdin)); [lia|].
  exact (inv_load _ _ _ H E).
Qed.

End LoopInvariant.

Lemma NoDup_dict_set {V} (d : dict V) k v :
  NoDup (dict_keys d) → NoDup (dict_keys (dict_set d k v)).
Proof.
  intros H. destruct (dict_get d k) as [v0|] eqn:E.
  - now rewrite (dict_keys_set_present _ _ _ _ E).
  - rewrite (dict_keys_set_absent _ _ _ E).
    apply NoDup_app. split; [assumption|]. split.
    + intros x Hx Hx'. apply list_elem_of_singleton in Hx'. subst x.
      now apply dict_get_None_keys in E.
    + apply NoDup_singleton.
Qed.

Lemma dict_del_keys_sub {V} (d d' : dict V) k :
  dict_del d k = Some d' → ∀ x, x ∈ dict_keys d' → x ∈ dict_keys d.
Proof.
  unfold dict_keys. revert d'.
  induction d as [|[k' v'] d IH]; simpl; intros d'; [discriminate|].
  destruct (String.eqb k' k).
  - intros [= <-] x Hx. now apply list_elem_of_further.
  - destruct (dict_del d k) as [d''|]; [|discriminate].
    intros [= <-] x Hx. simpl in Hx. apply elem_of_cons in Hx as [-> | Hx].
    + apply list_elem_of_here.
    + apply list_elem_of_further. now apply (IH d'').
Qed.

Lemma NoDup_dict_del {V} (d d' : dict V) k :
  NoDup (dict_keys d) → dict_del d k = Some d' → NoDup (dict_keys d').
Proof.
  unfold dict_keys. revert d'.
  induction d as [|[k' v'] d IH]; simpl; intros d' Hnd; [discriminate|].
  apply NoDup_cons in Hnd as [Hk' Hnd].
  destruct (String.eqb k' k).
  - now intros [= <-].
  - destruct (dict_del d k) as [d''|] eqn:E; [|discriminate].
    intros [= <-]. simpl. apply NoDup_cons. split; [|now apply (IH d'')].
    intros Hin. apply Hk'. exact (dict_del_keys_sub _ _ _ E _ Hin).
Qed.

Lemma Forall_dict_set_entry {V} (P : string * V → Prop) (d : dict V) k v :
  Forall P d → P (k, v) → Forall P (dict_set d k v).
Proof.
  intros H Hv. induction H as [|[k' v'] d Hx Hd IH]; simpl.
  - repeat constructor. exact Hv.
  - destruct (String.eqb k' k) eqn:E; constructor; auto.
    apply String.eqb_eq in E. now subst k'.
Qed.

Lemma book_ok_set d k r :
  book_ok d → Name.value (Record.name r) = k → book_ok (dict_set d k r).
Proof.
  intros [H1 H2] Hk. split; [now apply NoDup_dict_set|].
  now apply Forall_dict_set_entry.
Qed.

Lemma book_ok_get d k r :
  book_ok d → dict_get d k = Some r → Name.value (Record.name r) = k.
Proof.
  intros [_ H]. induction H as [|[k' v'] d Hx Hd IH]; simpl; [discriminate|].
  destruct (String.eqb k' k) eqn:E; [|assumption].
  apply String.eqb_eq in E. subst k'. now intros [= <-].
Qed.

Lemma book_ok_add_contact ab r :
  book_ok (AddressBook.data ab) →
  book_ok (AddressBook.data (AddressBook.add_contact ab r)).
Proof. intros H. now apply book_ok_set. Qed.

Lemma edit_phone_name r index phone r' :
  Record.edit_phone r index phone = Ok r' → Record.name r' = Record.name r.
Proof.
  unfold Record.edit_phone.
  destruct (Phone.__init__ phone); simpl; [|discriminate].
  destruct (py_index (Record.phones r) index); [|discriminate].
  now intros [= <-].
Qed.

Lemma book_ok_edit_contact ab name phone ab' :
  book_ok (AddressBook.data ab) →
  AddressBook.edit_contact ab name phone = Ok ab' →
  book_ok (AddressBook.data ab').
Proof.
  intros H. unfold AddressBook.edit_contact.
  destruct (dict_get (AddressBook.data ab) name) as [r|] eqn:Eg;
    [|discriminate].
  destruct (Record.edit_phone r 0 phone) as [r'|e] eqn:Ee; simpl;
    [|discriminate].
  intros [= <-]. apply book_ok_add_contact. simpl.
  apply book_ok_set; [assumption|].
  rewrite (edit_phone_name _ _ _ _ Ee). exact (book_ok_get _ _ _ H Eg).
Qed.

Lemma book_ok_add_from_line today ab line ab' :
  book_ok (AddressBook.data ab) → add_from_line today ab line = Ok ab' →
  book_ok (AddressBook.data ab').
Proof.
  intros H. unfold add_from_line.
  destruct (Z.of_nat (length (split line)) <? 2); [discriminate|].
  destruct (Phone.__init__ (Some (nth 1 (split line) ""))) as [p|e];
    simpl; [|discriminate].
  destruct (Birthday.__init__ today (split line !! 2%nat)) as [b|e];
    simpl; [|discriminate].
  intros [= <-]. now apply book_ok_add_contact.
Qed.

Lemma book_ok_delete_contact ab name ab' :
  book_ok (AddressBook.data ab) →
  AddressBook.delete_contact ab name = Ok ab' →
  book_ok (AddressBook.data ab').
Proof.
  intros [H1 H2]. unfold AddressBook.delete_contact.
  destruct (dict_del (AddressBook.data ab) name) as [d|] eqn:E;
    [|discriminate].
  intros [= <-]. simpl. split.
  - exact (NoDup_dict_del _ _ _ H1 E).
  - exact (Forall_dict_del _ _ _ _ H2 E).
Qed.

(** X28: whatever is typed, and however the run ends, the book that
    [main] leaves has all its names different, keeps each contact under
    its own name, and holds only phones the setter accepted, provided
    the pickles on disk at the start hold such books (as the files
    written by [save] do). *)
Theorem main_keeps_book_well_formed dumps loads today
    (files : filesystem) stdin :
  (∀ d, loads (dumps d) = Ok d) →
  files_hold (fun d => book_ok d ∧ phones_valid d) loads files →
  book_ok (AddressBook.data (ab (final (main dumps loads today files stdin))))
  ∧ phones_valid
      (AddressBook.data (ab (final (main dumps loads today files stdin)))).
Proof.
  intros Hrt Hfiles.
  set (good := fun d => book_ok d ∧ phones_valid d).
  pose (inv := fun (ab : AddressBook.t) (fs : filesystem) =>
                 good (AddressBook.data ab) ∧ files_hold good loads fs).
  assert (Hinv : inv (ab (final (main dumps loads today files stdin)))
                   (fs (final (main dumps loads today files stdin)))).
  { apply (main_keeps dumps loads today inv).
    - intros ab0 fs0 line ab' [[H1 H2] H3] E. split; [split|assumption].
      + exact (book_ok_add_from_line _ _ _ _ H1 E).
      + exact (add_from_line_valid _ _ _ _ H2 E).
    - intros ab0 fs0 name phone ab' [[H1 H2] H3] E. split; [split|assumption].
      + exact (book_ok_edit_contact _ _ _ _ H1 E).
      + exact (edit_contact_valid _ _ _ _ H2 E).
    - intros ab0 fs0 name ab' [[H1 H2] H3] E. split; [split|assumption].
      + exact (book_ok_delete_contact _ _ _ H1 E).
      + unfold AddressBook.delete_contact in E.
        destruct (dict_del (AddressBook.data ab0) name) as [d|] eqn:Ed;
          [|discriminate].
        injection E as <-. exact (Forall_dict_del _ _ _ _ H2 Ed).
    - intros ab0 fs0 [H1 H3]. split; [assumption|].
      intros path content d. unfold AddressBook.save_to_file.
      destruct (decide (file_name = path)) as [<- | Hne].
      + rewrite lookup_insert_eq. intros [= <-]. rewrite Hrt.
        now intros [= <-].
      + rewrite lookup_insert_ne by assumption. apply H3.
    - intros ab0 fs0 ab' [H1 H3] E. split; [|assumption].
      destruct (fs0 !! file_name) as [content|] eqn:Ef.
      + rewrite (load_from_file_found _ _ _ _ _ Ef) in E.
        destruct (loads content) as [d|e] eqn:El.
        * injection E as <-. exact (H3 _ _ _ Ef El).
        * destruct e; try discriminate. now injection E as <-.
      + rewrite (load_from_file_missing _ _ _ _ Ef) in E.
        now injection E as <-.
    - split; [|assumption]. repeat split; constructor. }
  destruct Hinv as [[H1 H2] _]. auto.
Qed.

Lemma files_hold_empty P loads : files_hold P loads ∅.
Proof. intros path content d H. now rewrite lookup_empty in H. Qed.

Lemma main_keeps_book_well_formed_witness :
  book_ok
    (AddressBook.data
       (ab (final (main_ref a_tuesday ∅
                     ["add"; "Alice +380501234567"; "save"; "change";
                      "Alice 380671234567"; "load"; "exit"]))))
  ∧ phones_valid
      (AddressBook.data
         (ab (final (main_ref a_tuesday ∅
                       ["add"; "Alice +380501234567"; "save"; "change";
                        "Alice 380671234567"; "load"; "exit"])))).
Proof.
  apply (main_keeps_book_well_formed Codec.dumps Codec.loads a_tuesday ∅ _
           Codec_loads_dumps).
  apply files_hold_empty.
Defined.

(** ** [main]: how a run ends *)

Lemma command_add_no_break today st line st' :
  command_add today st line ≠ Break st'.
Proof.
  unfold command_add.
  destruct (add_from_line today (ab st) line) as [?|[]]; discriminate.
Qed.

Lemma command_change_no_break st line st' :
  command_change st line ≠ Break st'.
Proof.
  unfold command_change.
  destruct (match split line with
            | [name; phone] => change_phone (ab st) name (Some phone)
            | _ => Raise (ValueError "not enough or too many values to unpack")
            end) as [[? ?]|[]]; discriminate.
Qed.

Lemma command_phone_no_break st command st' :
  command_phone st command ≠ Break st'.
Proof.
  unfold command_phone.
  destruct (match split command !! 1%nat with
            | Some name => show_phone (ab st) name
            | None => Raise (IndexError "list index out of range")
            end) as [?|[]]; discriminate.
Qed.

Lemma command_search_no_break today st command st' :
  command_search today st command ≠ Break st'.
Proof.
  unfold command_search.
  destruct (split_maxsplit_1 command !! 1%nat); [|discriminate].
  destruct (AddressBook.search (ab st) s) as [results|[]]; try discriminate.
  destruct (print_records today (print st "Search results:") results)
    as [?|[? []]]; try discriminate.
  destruct results; discriminate.
Qed.

Lemma command_show_all_no_break today st st' :
  command_show_all today st ≠ Break st'.
Proof.
  unfold command_show_all.
  destruct (AddressBook.show_all today (ab st)); discriminate.
Qed.

Lemma command_delete_no_break st name st' :
  command_delete st name ≠ Break st'.
Proof.
  unfold command_delete.
  destruct (delete_contact (ab st) name) as [[? ?]|[]]; discriminate.
Qed.

Lemma command_load_no_break loads st st' :
  command_load loads st ≠ Break st'.
Proof.
  unfold command_load.
  destruct (AddressBook.load_from_file loads (ab st) file_name (fs st));
    discriminate.
Qed.

Section Returned.

Variable dumps : dict Record.t → bytes.
Variable loads : bytes → result (dict Record.t).
Variable today : date.

(** A run of the loop that returns has read an exit command, and ends in
    the state that this command makes. *)
Lemma loop_returned n : ∀ stdin st,
  (length stdin <= n)%nat →
  how (loop dumps loads today stdin st) = Returned →
  ∃ before line after st',
    stdin = before ++ line :: after ∧ is_exit line = true
    ∧ final (loop dumps loads today stdin st)
      = print (print (save dumps st') "Address book saved") "Good bye!".
Proof.
  induction n as [|n IH]; intros stdin st Hn Hret.
  - destruct stdin; [discriminate | simpl in Hn; lia].
  - destruct stdin as [|line stdin]; [discriminate|].
    simpl in Hn.
    assert (Hstep : ∀ prefix stdin' s,
              (length stdin' <= n)%nat → (∀ st', s ≠ Break st') →
              how match s with
                  | Continue st' => loop dumps loads today stdin' st'
                  | Break st' => mkrun st' Returned
                  | Crash st' e => mkrun st' (Uncaught e)
                  end = Returned →
              ∃ before line after st',
                prefix ++ stdin' = before ++ line :: after
                ∧ is_exit line = true
                ∧ final match s with
                        | Continue st' => loop dumps loads today stdin' st'
                        | Break st' => mkrun st' Returned
                        | Crash st' e => mkrun st' (Uncaught e)
                        end
                  = print (print (save dumps st') "Address book saved")
                      "Good bye!").
    { intros prefix stdin' [s1|s1|s1 e] Hl Hnb Hr.
      - destruct (IH _ _ Hl Hr) as (before & l & after & st' & -> & Hex & Hf).
        exists (prefix ++ before), l, after, st'.
        rewrite <- app_assoc. auto.
      - now destruct (Hnb s1).
      - discriminate. }
    assert (Hsame : ∀ st1,
              how (loop dumps loads today stdin st1) = Returned →
              ∃ before line0 after st',
                line :: stdin = before ++ line0 :: after
                ∧ is_exit line0 = true
                ∧ final (loop dumps loads today stdin st1)
                  = print (print (save dumps st') "Address book saved")
                      "Good bye!").
    { intros st1 Hr.
      assert (Hl : (length stdin <= n)%nat) by lia.
      destruct (IH _ _ Hl Hr)
        as (before & l & after & st' & -> & Hex & Hf).
      exists (line :: before), l, after, st'. auto. }
    cbn [loop] in Hret |- *.
    destruct (String.eqb (lower line) "hello"); [now apply Hsame|].
    destruct (startswith (lower line) "add").
    { destruct stdin as [|line2 stdin]; [discriminate|]. simpl in Hn.
      apply (Hstep [line; line2]); [lia | | assumption].
      intros st'. apply command_add_no_break. }
    destruct (startswith (lower line) "change").
    { destruct stdin as [|line2 stdin]; [discriminate|]. simpl in Hn.
      apply (Hstep [line; line2]); [lia | | assumption].
      intros st'. apply command_change_no_break. }
    destruct (startswith (lower line) "phone").
    { apply (Hstep [line]); [lia | | assumption].
      intros st'. apply command_phone_no_break. }
    destruct (startswith (lower line) "search").
    { apply (Hstep [line]); [lia | | assumption].
      intros st'. apply command_search_no_break. }
    destruct (String.eqb (lower line) "show all").
    { apply (Hstep [line]); [lia | | assumption].
      intros st'. apply command_show_all_no_break. }
    destruct (String.eqb (lower line) "delete").
    { destruct stdin as [|line2 stdin]; [discriminate|]. simpl in Hn.
      apply (Hstep [line; line2]); [lia | | assumption].
      intros st'. apply command_delete_no_break. }
    destruct (String.eqb (lower line) "save").
    { apply (Hstep [line]); [lia | discriminate | assumption]. }
    destruct (String.eqb (lower line) "load").
    { apply (Hstep [line]); [lia | | assumption].
      intros st'. apply command_load_no_break. }
    destruct (String.eqb (lower line) "good bye" || String.eqb (lower line) "close"
              || String.eqb (lower line) "exit") eqn:Eexit;
      [|now apply Hsame].
    exists [], line, stdin, st. auto.
Qed.

End Returned.

(** X29: a run that returns has saved the book: the file holds the pickle
    of the book of the final state, the last two lines printed are
    "Address book saved" and "Good bye!", and the next run, on the files
    this one left, starts its loop with the same book. *)
Theorem returned_run_is_saved dumps loads today (files : filesystem) stdin :
  (∀ d, loads (dumps d) = Ok d) →
  how (main dumps loads today files stdin) = Returned →
  let st := final (main dumps loads today files stdin) in
  fs st !! file_name = Some (dumps (AddressBook.data (ab st)))
  ∧ (∃ earlier,
       out st = earlier ++ [Print "Address book saved"; Print "Good bye!"])
  ∧ ∀ today' stdin',
      main dumps loads today' (fs st) stdin'
      = loop dumps loads today' stdin' (mkstate (ab st) (fs st) [Print "Hello!"]).
Proof.
  intros Hrt Hret st. subst st. unfold main in Hret |- *.
  cbn [ab fs] in Hret |- *.
  destruct (AddressBook.load_from_file loads AddressBook.__init__ file_name
              files) as [ab0|e]; [|discriminate].
  destruct (loop_returned dumps loads today (length stdin) stdin _
              (Nat.le_refl _) Hret)
    as (before & line & after & st' & _ & _ & ->).
  assert (Hfile : fs (print (print (save dumps st') "Address book saved")
                        "Good bye!") !! file_name
                  = Some (dumps (AddressBook.data (ab st')))).
  { cbn [fs print save]. unfold AddressBook.save_to_file.
    apply lookup_insert_eq. }
  split; [exact Hfile|]. split.
  - exists (out st'). cbn [out print save]. now rewrite <- app_assoc.
  - intros today' stdin'. unfold main. cbn [ab fs] in Hfile |- *.
    rewrite (load_from_file_found _ _ _ _ _ Hfile), Hrt, AddressBook_eta.
    reflexivity.
Qed.

Lemma returned_run_is_saved_witness :
  let st := final (main_ref a_tuesday ∅
                     ["add"; "Alice +380501234567"; "exit"]) in
  fs st !! file_name = Some (Codec.dumps (AddressBook.data (ab st)))
  ∧ (∃ earlier,
       out st = earlier ++ [Print "Address book saved"; Print "Good bye!"])
  ∧ ∀ today' stdin',
      main_ref today' (fs st) stdin'
      = loop Codec.dumps Codec.loads today' stdin'
          (mkstate (ab st) (fs st) [Print "Hello!"]).
Proof.
  apply (returned_run_is_saved Codec.dumps Codec.loads a_tuesday ∅
           ["add"; "Alice +380501234567"; "exit"] Codec_loads_dumps).
  reflexivity.
Defined.

(** X30: only an exit command ends the program normally: where no line
    of the input is "exit", "close" or "good bye" in any case of the
    letters, the run ends with an exception that nobody caught, such as
    the [EOFError] of the [input] that finds no line. *)
Theorem run_without_exit_is_uncaught dumps loads today
    (files : filesystem) stdin :
  (∀ line, line ∈ stdin → is_exit line = false) →
  ∃ e, how (main dumps loads today files stdin) = Uncaught e.
Proof.
  intros Hno.
  destruct (how (main dumps loads today files stdin)) as [|e] eqn:Hret;
    [|eauto].
  exfalso. unfold main in Hret. cbn [ab fs] in Hret.
  destruct (AddressBook.load_from_file loads AddressBook.__init__ file_name
              files) as [ab0|e]; [|discriminate].
  destruct (loop_returned dumps loads today (length stdin) stdin _
              (Nat.le_refl _) Hret)
    as (before & line & after & st' & -> & Hex & _).
  rewrite Hno in Hex; [discriminate|].
  apply elem_of_app. right. apply list_elem_of_here.
Qed.

Lemma run_without_exit_is_uncaught_witness :
  ∃ e, how (main_ref a_tuesday ∅ ["hello"; "add"; "Alice"; "save"])
       = Uncaught e.
Proof.
  apply (run_without_exit_is_uncaught Codec.dumps Codec.loads a_tuesday ∅
           ["hello"; "add"; "Alice"; "save"]).
  intros line Hin.
  repeat (apply elem_of_cons in Hin as [-> | Hin]; [reflexivity|]).
  inversion Hin.
Defined.
